(** * The Emscripten HTTP subtransport of libgit2-sys

    A shallow embedding of
    [libgit2-sys/emscripten-transport/emscriptenhttp-async.c]: the smart
    subtransport that hands Git's smart-HTTP requests to the JavaScript
    runtime hosting the WebAssembly module.

    The C heap is a finite map from locations to objects, the JavaScript
    runtime is a function from the history of its calls to the number it
    answers, and every C function is a computation in a state monad over
    [world] whose failure ([None]) stands for undefined behaviour (a
    dereference of a pointer that holds no object of the expected type). *)

From stdpp Require Import base option gmap strings list.
From Stdlib Require Import ZArith Lia.

Open Scope Z_scope.

(** ** Machine integers of the wasm32 target *)

Definition wrap_unsigned (bits z : Z) : Z := z mod 2 ^ bits.

Definition wrap_signed (bits z : Z) : Z :=
  (z + 2 ^ (bits - 1)) mod 2 ^ bits - 2 ^ (bits - 1).

(** [int] and [size_t] are both 32 bits wide under Emscripten's wasm32 ABI. *)
Definition to_int : Z -> Z := wrap_signed 32.
Definition to_size_t : Z -> Z := wrap_unsigned 32.

Definition INT_MIN : Z := - 2 ^ 31.
Definition INT_MAX : Z := 2 ^ 31 - 1.

(** ** JavaScript strings *)

(** [String.prototype.indexOf]: the index of the first occurrence of
    [needle], or [-1]. *)
Fixpoint indexOf_from (needle s : string) (i : Z) : Z :=
  if String.prefix needle s then i
  else match s with
       | EmptyString => -1
       | String _ s' => indexOf_from needle s' (i + 1)
       end.

Definition indexOf (s needle : string) : Z := indexOf_from needle s 0.

(** [UTF8ToString]: a null pointer reads as the empty string. *)
Definition UTF8ToString (p : option string) : string :=
  match p with
  | Some s => s
  | None => EmptyString
  end.

(** The words of the specification: the URL mentions a service name when
    the name occurs somewhere in it. *)
Definition mentions (url name : string) : Prop :=
  exists pre post : string, url = (pre ++ name ++ post)%string.

(** ** The host runtime *)

(** The calls the module makes on the JavaScript [Module] object. *)
Inductive host_call : Type :=
| emscriptenhttpconnect
    (url : string) (buf_size : Z)
    (method : option string) (headers : list (string * string))
| emscriptenhttpread (connectionNo : Z) (buffer : Z) (buf_size : Z)
| emscriptenhttpwrite (connectionNo : Z) (buffer : Z) (len : Z).

Record host_event : Type := HostEvent {
  ev_call : host_call;
  ev_result : Z
}.

(** The host answers a call with a number that may depend on everything
    it has been asked before. *)
Definition host_runtime : Type := list host_event -> host_call -> Z.

Definition is_connect (e : host_event) : bool :=
  match ev_call e with
  | emscriptenhttpconnect _ _ _ _ => true
  | _ => false
  end.

Definition is_get (e : host_event) : bool :=
  match ev_call e with
  | emscriptenhttpconnect _ _ None _ => true
  | _ => false
  end.

Definition is_post (e : host_event) : bool :=
  match ev_call e with
  | emscriptenhttpconnect _ _ (Some m) _ => String.eqb m "POST"
  | _ => false
  end.

(** How many connections a log records as opened. *)
Definition opens (log : list host_event) : nat :=
  length (filter (fun e => is_connect e = true) log).

Definition gets (log : list host_event) : nat :=
  length (filter (fun e => is_get e = true) log).

Definition posts (log : list host_event) : nat :=
  length (filter (fun e => is_post e = true) log).

(** ** Objects and the heap *)

Definition loc : Type := positive.

(** The functions of the module, as the values of function pointers. *)
Inductive fnptr : Type :=
| fn_emscriptenhttp_stream_read
| fn_emscriptenhttp_stream_write_single
| fn_emscriptenhttp_stream_free
| fn_emscriptenhttp_action
| fn_emscriptenhttp_close
| fn_emscriptenhttp_free.

(** [emscriptenhttp_stream]; the [parent] member is flattened into the
    [parent_] fields. *)
Record emscriptenhttp_stream : Type := Stream {
  parent_subtransport : option loc;
  parent_read : option fnptr;
  parent_write : option fnptr;
  parent_free : option fnptr;
  service_url : option string;
  connectionNo : Z
}.

(** [emscriptenhttp_subtransport]. *)
Record emscriptenhttp_subtransport : Type := Subtransport {
  parent_action : option fnptr;
  parent_close : option fnptr;
  parent_free_transport : option fnptr;
  owner : option loc
}.

Inductive object : Type :=
| Obj_stream (s : emscriptenhttp_stream)
| Obj_subtransport (t : emscriptenhttp_subtransport).

Record world : Type := World {
  heap : gmap loc object;
  host_log : list host_event;
  git_error : option (Z * string)
}.

Definition set_heap (h : gmap loc object) (w : world) : world :=
  World h (host_log w) (git_error w).

Definition set_connectionNo (c : Z) (s : emscriptenhttp_stream)
  : emscriptenhttp_stream :=
  Stream (parent_subtransport s) (parent_read s) (parent_write s)
         (parent_free s) (service_url s) c.

Definition set_service_url (u : option string) (s : emscriptenhttp_stream)
  : emscriptenhttp_stream :=
  Stream (parent_subtransport s) (parent_read s) (parent_write s)
         (parent_free s) u (connectionNo s).

(** What [calloc] hands out: all members zero. *)
Definition zero_stream : emscriptenhttp_stream :=
  Stream None None None None None 0.

Definition zero_subtransport : emscriptenhttp_subtransport :=
  Subtransport None None None None.

(** ** The monad of C computations *)

Definition M (A : Type) : Type := world -> option (A * world).

#[global] Instance M_ret : MRet M := fun A a w => Some (a, w).

#[global] Instance M_bind : MBind M := fun A B f m w =>
  match m w with
  | Some (a, w') => f a w'
  | None => None
  end.

Definition undefined {A : Type} : M A := fun _ => None.

Definition load_stream (p : loc) : M emscriptenhttp_stream := fun w =>
  match heap w !! p with
  | Some (Obj_stream s) => Some (s, w)
  | _ => None
  end.

Definition store_stream (p : loc) (s : emscriptenhttp_stream) : M unit :=
  fun w => Some (tt, set_heap (<[p := Obj_stream s]> (heap w)) w).

Definition load_subtransport (p : loc) : M emscriptenhttp_subtransport :=
  fun w =>
  match heap w !! p with
  | Some (Obj_subtransport t) => Some (t, w)
  | _ => None
  end.

Definition store_subtransport (p : loc) (t : emscriptenhttp_subtransport)
  : M unit :=
  fun w => Some (tt, set_heap (<[p := Obj_subtransport t]> (heap w)) w).

(** Modelled from the spec: the allocator [git__calloc] is libgit2's, not
    the module's; allocation failures abort through the host allocator and
    so never come back to the module as a null pointer. The block handed
    out is a location the heap does not use yet, holding the zeroed
    object. *)
Definition git__calloc (zeroed : object) : M (option loc) := fun w =>
  let p := fresh (dom (heap w)) in
  Some (Some p, set_heap (<[p := zeroed]> (heap w)) w).

(** [git__free]: the block is gone; freeing a null pointer does nothing. *)
Definition git__free (p : option loc) : M unit := fun w =>
  match p with
  | Some l => Some (tt, set_heap (delete l (heap w)) w)
  | None => Some (tt, w)
  end.

(** [git_error_set]: the thread's last error. *)
Definition git_error_set (error_class : Z) (msg : string) : M unit :=
  fun w => Some (tt, World (heap w) (host_log w) (Some (error_class, msg))).

(** [git_str], by the text it holds. *)
Record git_str : Type := GitStr {
  ptr : string;
  size : Z
}.

(** Modelled from the spec: [GIT_STR_INIT], [git_str_printf] and
    [git_str_cstr] belong to libgit2's string buffer, not to the module.
    An initialised buffer holds the empty string, printing ["%s%s"]
    appends the two arguments, and [git_str_cstr] is the text held. *)
Definition GIT_STR_INIT : git_str := GitStr EmptyString 0.

Definition git_str_printf_ss (buf : git_str) (a b : string) : git_str :=
  GitStr (ptr buf ++ a ++ b)%string
         (size buf + Z.of_nat (String.length (a ++ b)%string)).

Definition git_str_cstr (buf : git_str) : string := ptr buf.

(** ** The module *)

Definition DEFAULT_BUFSIZE : Z := 65536.

Definition upload_pack_ls_service_url : string :=
  "/info/refs?service=git-upload-pack".
Definition upload_pack_service_url : string := "/git-upload-pack".
Definition receive_pack_ls_service_url : string :=
  "/info/refs?service=git-receive-pack".
Definition receive_pack_service_url : string := "/git-receive-pack".

(** The value [connectionNo] holds until a connection is opened. *)
Definition UNOPENED : Z := -1.

Definition content_type (urlString : string) : string :=
  if 0 <? indexOf urlString "git-upload-pack"
  then "application/x-git-upload-pack-request"
  else "application/x-git-receive-pack-request".

Section Transport.

(** The JavaScript runtime the module runs in. *)
Variable js : host_runtime.

(** The enumerators of [git_smart_service_t], declared in libgit2's
    [git2/sys/transport.h]. *)
Variables GIT_SERVICE_UPLOADPACK_LS GIT_SERVICE_UPLOADPACK
          GIT_SERVICE_RECEIVEPACK_LS GIT_SERVICE_RECEIVEPACK : Z.

(** One call into the host: the answer is logged with the call. *)
Definition host_invoke (c : host_call) : M Z := fun w =>
  let r := js (host_log w) c in
  Some (r, World (heap w) (host_log w ++ [HostEvent c r]) (git_error w)).

Definition emscriptenhttp_do_get (url : option string) (buf_size : Z) : M Z :=
  let urlString := UTF8ToString url in
  r ← host_invoke (emscriptenhttpconnect urlString buf_size None []);
  mret (to_int r).

Definition emscriptenhttp_do_post (url : option string) (buf_size : Z) : M Z :=
  let urlString := UTF8ToString url in
  r ← host_invoke
        (emscriptenhttpconnect urlString buf_size (Some "POST")
           [("Content-Type", content_type urlString)]);
  mret (to_int r).

Definition emscriptenhttp_do_read (connectionNo buffer buf_size : Z) : M Z :=
  r ← host_invoke (emscriptenhttpread connectionNo buffer buf_size);
  mret (to_size_t r).

Definition emscriptenhttp_stream_free (stream : loc) : M unit :=
  git__free (Some stream).

(** [bytes_read] is the content of the caller's cell on entry; the second
    component of the result is its content on return. *)
Definition emscriptenhttp_stream_read
    (stream : loc) (buffer buf_size : Z) (bytes_read : Z) : M (Z * Z) :=
  s ← load_stream stream;
  (if connectionNo s =? -1
   then c ← emscriptenhttp_do_get (service_url s) DEFAULT_BUFSIZE;
        store_stream stream (set_connectionNo c s)
   else mret tt);;
  s ← load_stream stream;
  r ← emscriptenhttp_do_read (connectionNo s) buffer buf_size;
  let read := to_int r in
  if read <? 0
  then git_error_set 0 "request aborted by user";;
       mret (-1, bytes_read)
  else mret (0, to_size_t read).

Definition emscriptenhttp_stream_write_single
    (stream : loc) (buffer len : Z) : M Z :=
  s ← load_stream stream;
  (if connectionNo s =? -1
   then c ← emscriptenhttp_do_post (service_url s) DEFAULT_BUFSIZE;
        store_stream stream (set_connectionNo c s)
   else mret tt);;
  s ← load_stream stream;
  host_invoke (emscriptenhttpwrite (connectionNo s) buffer len);;
  mret 0.

(** [stream] is the out-pointer: [None] when it is null, otherwise the
    content of the cell it points to; the second component of the result is
    the cell on return. *)
Definition emscriptenhttp_stream_alloc
    (t : loc) (stream : option (option loc)) : M (Z * option (option loc)) :=
  match stream with
  | None => mret (-1, stream)
  | Some _ =>
      s ← git__calloc (Obj_stream zero_stream);
      match s with
      | None => mret (-1, stream)
      | Some p =>
          store_stream p
            (Stream (Some t)
                    (Some fn_emscriptenhttp_stream_read)
                    (Some fn_emscriptenhttp_stream_write_single)
                    (Some fn_emscriptenhttp_stream_free)
                    (service_url zero_stream) (-1));;
          mret (0, Some (Some p))
      end
  end.

(** The [switch] of [emscriptenhttp_action]. *)
Definition action_switch (buf : git_str) (url : string) (action : Z)
  : git_str :=
  if action =? GIT_SERVICE_UPLOADPACK_LS
  then git_str_printf_ss buf url upload_pack_ls_service_url
  else if action =? GIT_SERVICE_UPLOADPACK
  then git_str_printf_ss buf url upload_pack_service_url
  else if action =? GIT_SERVICE_RECEIVEPACK_LS
  then git_str_printf_ss buf url receive_pack_ls_service_url
  else if action =? GIT_SERVICE_RECEIVEPACK
  then git_str_printf_ss buf url receive_pack_service_url
  else buf.

(** [stream] is the content of the caller's cell on entry; the second
    component of the result is its content on return. *)
Definition emscriptenhttp_action
    (stream : option loc) (subtransport : loc) (url : string) (action : Z)
  : M (Z * option loc) :=
  '(rc, s) ← emscriptenhttp_stream_alloc subtransport (Some None);
  if rc <? 0 then mret (-1, stream)
  else
    let buf := action_switch GIT_STR_INIT url action in
    match s with
    | Some (Some p) =>
        st ← load_stream p;
        store_stream p (set_service_url (Some (git_str_cstr buf)) st);;
        mret (0, Some p)
    | _ => undefined
    end.

Definition emscriptenhttp_close (subtransport : loc) : M Z := mret 0.

Definition emscriptenhttp_free (subtransport : loc) : M unit :=
  emscriptenhttp_close subtransport;;
  git__free (Some subtransport).

(** [out] follows the convention of [emscriptenhttp_stream_alloc]; the
    unused [param] is left out. *)
Definition git_smart_subtransport_http
    (out : option (option loc)) (owner : option loc)
  : M (Z * option (option loc)) :=
  match out with
  | None => mret (-1, out)
  | Some _ =>
      t ← git__calloc (Obj_subtransport zero_subtransport);
      match t with
      | None => mret (-1, out)
      | Some p =>
          store_subtransport p
            (Subtransport (Some fn_emscriptenhttp_action)
                          (Some fn_emscriptenhttp_close)
                          (Some fn_emscriptenhttp_free)
                          owner);;
          mret (0, Some (Some p))
      end
  end.

End Transport.

(** ** Callers of the module *)

(** A call through the subtransport interface. *)
Inductive api_call : Type :=
| Api_subtransport_http (out : option (option loc)) (owner : option loc)
| Api_action (stream : option loc) (subtransport : loc)
             (url : string) (action : Z)
| Api_close (subtransport : loc)
| Api_free (subtransport : loc)
| Api_stream_read (stream : loc) (buffer buf_size bytes_read : Z)
| Api_stream_write (stream : loc) (buffer len : Z)
| Api_stream_free (stream : loc).

(** A read or a write on one stream. *)
Inductive stream_op : Type :=
| Op_read (buffer buf_size bytes_read : Z)
| Op_write (buffer len : Z).

Section Callers.

Variable js : host_runtime.
Variables GIT_SERVICE_UPLOADPACK_LS GIT_SERVICE_UPLOADPACK
          GIT_SERVICE_RECEIVEPACK_LS GIT_SERVICE_RECEIVEPACK : Z.

(** The status a call returns; the [void] functions count as [0]. *)
Definition run_api (c : api_call) : M Z :=
  match c with
  | Api_subtransport_http out owner =>
      r ← git_smart_subtransport_http out owner; mret r.1
  | Api_action stream t url action =>
      r ← emscriptenhttp_action
            GIT_SERVICE_UPLOADPACK_LS GIT_SERVICE_UPLOADPACK
            GIT_SERVICE_RECEIVEPACK_LS GIT_SERVICE_RECEIVEPACK
            stream t url action;
      mret r.1
  | Api_close t => emscriptenhttp_close t
  | Api_free t => emscriptenhttp_free t;; mret 0
  | Api_stream_read s buffer buf_size bytes_read =>
      r ← emscriptenhttp_stream_read js s buffer buf_size bytes_read;
      mret r.1
  | Api_stream_write s buffer len =>
      emscriptenhttp_stream_write_single js s buffer len
  | Api_stream_free s => emscriptenhttp_stream_free s;; mret 0
  end.

Definition run_op (stream : loc) (o : stream_op) : M Z :=
  match o with
  | Op_read buffer buf_size bytes_read =>
      r ← emscriptenhttp_stream_read js stream buffer buf_size bytes_read;
      mret r.1
  | Op_write buffer len =>
      emscriptenhttp_stream_write_single js stream buffer len
  end.

(** The calls of [ops] one after the other, with their statuses. *)
Fixpoint run_ops (stream : loc) (ops : list stream_op) : M (list Z) :=
  match ops with
  | [] => mret []
  | o :: ops' =>
      rc ← run_op stream o;
      rcs ← run_ops stream ops';
      mret (rc :: rcs)
  end.

End Callers.

(** The connection a host call is made on. *)
Definition on_connection (c : Z) (e : host_event) : Prop :=
  match ev_call e with
  | emscriptenhttpconnect _ _ _ _ => False
  | emscriptenhttpread c' _ _ => c' = c
  | emscriptenhttpwrite c' _ _ => c' = c
  end.

(** The value the C variable [read] takes for an answer of the host. *)
Definition read_value (r : Z) : Z := to_int (to_size_t r).

Definition aborted_by_user : option (Z * string) :=
  Some (0, "request aborted by user"%string).

(** ** Sample hosts and worlds *)

(** Connections are numbered from zero in a table of 1024 slots; a read
    fills the buffer; a write answers nothing. *)
Definition numbering_host : host_runtime := fun log c =>
  match c with
  | emscriptenhttpconnect _ _ _ _ => Z.of_nat (opens log) mod 1024
  | emscriptenhttpread _ _ buf_size => buf_size
  | emscriptenhttpwrite _ _ _ => 0
  end.

(** Every read is aborted. *)
Definition aborting_host : host_runtime := fun log c =>
  match c with
  | emscriptenhttpconnect _ _ _ _ => Z.of_nat (opens log)
  | emscriptenhttpread _ _ _ => -1
  | emscriptenhttpwrite _ _ _ => 0
  end.

(** Every connection attempt is answered with [-1]. *)
Definition refusing_host : host_runtime := fun log c =>
  match c with
  | emscriptenhttpconnect _ _ _ _ => -1
  | emscriptenhttpread _ _ _ => 0
  | emscriptenhttpwrite _ _ _ => 0
  end.

(** A read answers six bytes more than it was asked for. *)
Definition overfull_host : host_runtime := fun log c =>
  match c with
  | emscriptenhttpconnect _ _ _ _ => Z.of_nat (opens log)
  | emscriptenhttpread _ _ buf_size => buf_size + 6
  | emscriptenhttpwrite _ _ _ => 0
  end.

Definition empty_world : world := World ∅ [] None.

Definition fresh_stream (url : string) : emscriptenhttp_stream :=
  Stream (Some 1%positive)
         (Some fn_emscriptenhttp_stream_read)
         (Some fn_emscriptenhttp_stream_write_single)
         (Some fn_emscriptenhttp_stream_free)
         (Some url) (-1).

(** A world with one unopened stream at location 2. *)
Definition one_stream_world (url : string) : world :=
  World {[ 2%positive := Obj_stream (fresh_stream url) ]} [] None.

(** A world whose stream at location 2 is connected with handle 7. *)
Definition connected_world (url : string) : world :=
  World {[ 2%positive := Obj_stream (set_connectionNo 7 (fresh_stream url)) ]}
        [] None.

(** ** What a call leaves behind

    The effect of the connection check that opens both
    [emscriptenhttp_stream_read] and [emscriptenhttp_stream_write_single],
    written as a function of the stream and the world; the lemmas
    [stream_read_eq] and [stream_write_eq] relate it to the code. *)

Definition get_call (s : emscriptenhttp_stream) : host_call :=
  emscriptenhttpconnect (UTF8ToString (service_url s)) DEFAULT_BUFSIZE None [].

Definition post_call (s : emscriptenhttp_stream) : host_call :=
  emscriptenhttpconnect (UTF8ToString (service_url s)) DEFAULT_BUFSIZE
    (Some "POST"%string)
    [("Content-Type"%string, content_type (UTF8ToString (service_url s)))].

Definition log_call (js : host_runtime) (c : host_call) (w : world) : world :=
  World (heap w) (host_log w ++ [HostEvent c (js (host_log w) c)])
        (git_error w).

Definition opened_stream (js : host_runtime) (c : host_call)
    (s : emscriptenhttp_stream) (w : world) : emscriptenhttp_stream :=
  if connectionNo s =? -1
  then set_connectionNo (to_int (js (host_log w) c)) s
  else s.

Definition opened_world (js : host_runtime) (c : host_call) (p : loc)
    (s : emscriptenhttp_stream) (w : world) : world :=
  if connectionNo s =? -1
  then set_heap (<[p := Obj_stream (opened_stream js c s w)]> (heap w))
                (log_call js c w)
  else w.

(** The number the host answers to the read that
    [emscriptenhttp_stream_read] makes on the stream [s] at [p]. *)
Definition read_answer (js : host_runtime) (p : loc) (buffer buf_size : Z)
    (s : emscriptenhttp_stream) (w : world) : Z :=
  js (host_log (opened_world js (get_call s) p s w))
     (emscriptenhttpread
        (connectionNo (opened_stream js (get_call s) s w)) buffer buf_size).

(** The call that opens the connection, by the operation that finds the
    stream unopened. *)
Definition open_call (o : stream_op) (s : emscriptenhttp_stream) : host_call :=
  match o with
  | Op_read _ _ _ => get_call s
  | Op_write _ _ => post_call s
  end.

(** The host never hands out the unopened mark as a connection handle. *)
Definition proper_handles (js : host_runtime) : Prop :=
  forall log url buf_size method headers,
    to_int (js log (emscriptenhttpconnect url buf_size method headers))
    <> UNOPENED.

(** A read answers one less than the least [int]. *)
Definition underflow_host : host_runtime := fun log c =>
  match c with
  | emscriptenhttpconnect _ _ _ _ => Z.of_nat (opens log) mod 1024
  | emscriptenhttpread _ _ _ => -2147483649
  | emscriptenhttpwrite _ _ _ => 0
  end.

(** Every connection attempt is answered with 2^32 - 1. *)
Definition wrapping_host : host_runtime := fun log c =>
  match c with
  | emscriptenhttpconnect _ _ _ _ => 4294967295
  | emscriptenhttpread _ _ _ => 0
  | emscriptenhttpwrite _ _ _ => 0
  end.

(** A read answers 2^31 bytes, one more than an [int] holds. *)
Definition huge_host : host_runtime := fun log c =>
  match c with
  | emscriptenhttpconnect _ _ _ _ => Z.of_nat (opens log) mod 1024
  | emscriptenhttpread _ _ _ => 2 ^ 31
  | emscriptenhttpwrite _ _ _ => 0
  end.

(** A world with a subtransport at location 1 and its unopened stream at
    location 2. *)
Definition transport_world (url : string) : world :=
  World (<[ 1%positive :=
              Obj_subtransport
                (Subtransport (Some fn_emscriptenhttp_action)
                              (Some fn_emscriptenhttp_close)
                              (Some fn_emscriptenhttp_free) None) ]>
           {[ 2%positive := Obj_stream (fresh_stream url) ]})
        [] None.

(** The calls of the interface that are not a read or a write. *)
Definition is_lifecycle (c : api_call) : bool :=
  match c with
  | Api_stream_read _ _ _ _ | Api_stream_write _ _ _ => false
  | _ => true
  end.

(** ** Machine integers: the values that survive the conversions *)

Lemma to_int_range (z : Z) : INT_MIN <= to_int z <= INT_MAX.
Proof.
  unfold to_int, wrap_signed, INT_MIN, INT_MAX.
  pose proof (Z.mod_pos_bound (z + 2 ^ (32 - 1)) (2 ^ 32)). lia.
Qed.

Lemma to_int_id (z : Z) : INT_MIN <= z <= INT_MAX -> to_int z = z.
Proof.
  unfold to_int, wrap_signed, INT_MIN, INT_MAX. intros Hz.
  rewrite Z.mod_small; lia.
Qed.

Lemma to_size_t_id (z : Z) : 0 <= z < 2 ^ 32 -> to_size_t z = z.
Proof. unfold to_size_t, wrap_unsigned. intros Hz. apply Z.mod_small; lia. Qed.

Lemma read_value_range (r : Z) : INT_MIN <= read_value r <= INT_MAX.
Proof. apply to_int_range. Qed.

(** An answer that fits an [int] reaches the variable [read] unchanged. *)
Lemma read_value_id (r : Z) : INT_MIN <= r <= INT_MAX -> read_value r = r.
Proof.
  unfold read_value, to_int, to_size_t, wrap_signed, wrap_unsigned,
    INT_MIN, INT_MAX.
  intros Hr.
  replace (2 ^ (32 - 1)) with 2147483648 by reflexivity.
  replace (2 ^ 32) with 4294967296 in * by reflexivity.
  replace (2 ^ 31) with 2147483648 in * by reflexivity.
  rewrite Zplus_mod_idemp_l. rewrite Z.mod_small; lia.
Qed.

Lemma to_size_t_read_value (r : Z) :
  0 <= read_value r -> to_size_t (read_value r) = read_value r.
Proof.
  intros Hr. pose proof (read_value_range r) as Hb.
  apply to_size_t_id. unfold INT_MAX in Hb.
  replace (2 ^ 31) with 2147483648 in * by reflexivity.
  replace (2 ^ 32) with 4294967296 by reflexivity. lia.
Qed.

(** ** Logs *)

Lemma opens_app (l1 l2 : list host_event) :
  opens (l1 ++ l2) = (opens l1 + opens l2)%nat.
Proof. unfold opens. by rewrite filter_app, length_app. Qed.

Lemma gets_app (l1 l2 : list host_event) :
  gets (l1 ++ l2) = (gets l1 + gets l2)%nat.
Proof. unfold gets. by rewrite filter_app, length_app. Qed.

Lemma posts_app (l1 l2 : list host_event) :
  posts (l1 ++ l2) = (posts l1 + posts l2)%nat.
Proof. unfold posts. by rewrite filter_app, length_app. Qed.

Lemma on_connection_not_connect (c : Z) (e : host_event) :
  on_connection c e -> is_connect e = false.
Proof. unfold on_connection, is_connect. by destruct (ev_call e). Qed.

Lemma is_get_connect (e : host_event) : is_get e = true -> is_connect e = true.
Proof.
  unfold is_get, is_connect.
  destruct (ev_call e) as [u b [m|] h| |]; done.
Qed.

Lemma is_post_connect (e : host_event) :
  is_post e = true -> is_connect e = true.
Proof.
  unfold is_post, is_connect.
  destruct (ev_call e) as [u b [m|] h| |]; done.
Qed.

(** Calls made on an open connection open nothing. *)
Lemma on_connection_opens (c : Z) (evs : list host_event) :
  Forall (on_connection c) evs ->
  opens evs = 0%nat /\ gets evs = 0%nat /\ posts evs = 0%nat.
Proof.
  induction 1 as [|e evs He _ IH]; [done|].
  destruct IH as (IHo & IHg & IHp).
  pose proof (on_connection_not_connect _ _ He) as Hc.
  assert (is_get e = false) as Hg.
  { destruct (is_get e) eqn:E; [|done].
    apply is_get_connect in E. congruence. }
  assert (is_post e = false) as Hp.
  { destruct (is_post e) eqn:E; [|done].
    apply is_post_connect in E. congruence. }
  unfold opens, gets, posts in *.
  rewrite !filter_cons. repeat case_decide; try congruence. done.
Qed.

(** ** The stream operations, call by call *)

Ltac unfold_M :=
  unfold mbind, M_bind, mret, M_ret, load_stream, store_stream, host_invoke,
    git_error_set, git__free, git__calloc, undefined, set_heap, log_call in *.

Section Stream_facts.

Variable js : host_runtime.

Lemma opened_world_live c p s w :
  heap w !! p = Some (Obj_stream s) ->
  heap (opened_world js c p s w) !! p = Some (Obj_stream (opened_stream js c s w)).
Proof.
  intros Hp. unfold opened_world, opened_stream.
  destruct (connectionNo s =? -1); [|done].
  unfold_M. simpl. apply lookup_insert_eq.
Qed.

Lemma opened_world_other c p q s w :
  q <> p -> heap (opened_world js c p s w) !! q = heap w !! q.
Proof.
  intros Hq. unfold opened_world.
  destruct (connectionNo s =? -1); [|done].
  unfold_M. simpl. by apply lookup_insert_ne.
Qed.

Lemma opened_world_error c p s w :
  git_error (opened_world js c p s w) = git_error w.
Proof. unfold opened_world. by destruct (connectionNo s =? -1). Qed.

Lemma opened_world_log c p s w :
  host_log (opened_world js c p s w) =
  host_log w ++
    (if connectionNo s =? -1 then [HostEvent c (js (host_log w) c)] else []).
Proof.
  unfold opened_world.
  destruct (connectionNo s =? -1); [done|]. by rewrite app_nil_r.
Qed.

(** A read, on a pointer that holds a stream. *)
Lemma stream_read_eq p buffer buf_size bytes_read s w :
  heap w !! p = Some (Obj_stream s) ->
  let s1 := opened_stream js (get_call s) s w in
  let w1 := opened_world js (get_call s) p s w in
  let c := emscriptenhttpread (connectionNo s1) buffer buf_size in
  let r := js (host_log w1) c in
  emscriptenhttp_stream_read js p buffer buf_size bytes_read w =
  Some (if read_value r <? 0
        then (-1, bytes_read,
              World (heap w1) (host_log w1 ++ [HostEvent c r]) aborted_by_user)
        else (0, to_size_t (read_value r), log_call js c w1)).
Proof.
  intros Hp s1 w1 c r.
  pose proof (opened_world_live (get_call s) p s w Hp) as Hlive.
  fold s1 w1 in Hlive.
  unfold emscriptenhttp_stream_read, emscriptenhttp_do_get,
    emscriptenhttp_do_read.
  unfold mbind at 1, M_bind at 1, load_stream at 1. rewrite Hp.
  assert ((if connectionNo s =? -1
           then c ← (r ← host_invoke js
                          (emscriptenhttpconnect (UTF8ToString (service_url s))
                             DEFAULT_BUFSIZE None []);
                     mret (to_int r));
                store_stream p (set_connectionNo c s)
           else mret ()) w = Some (tt, w1)) as Hopen.
  { subst w1. unfold opened_world, opened_stream, get_call.
    destruct (connectionNo s =? -1); unfold_M; done. }
  unfold mbind at 1, M_bind at 1. rewrite Hopen.
  unfold mbind at 1, M_bind at 1, load_stream at 1. rewrite Hlive.
  unfold_M. fold c r. fold (read_value r).
  destruct (read_value r <? 0); done.
Qed.

(** A write, on a pointer that holds a stream. *)
Lemma stream_write_eq p buffer len s w :
  heap w !! p = Some (Obj_stream s) ->
  let s1 := opened_stream js (post_call s) s w in
  let w1 := opened_world js (post_call s) p s w in
  emscriptenhttp_stream_write_single js p buffer len w =
  Some (0, log_call js (emscriptenhttpwrite (connectionNo s1) buffer len) w1).
Proof.
  intros Hp s1 w1.
  pose proof (opened_world_live (post_call s) p s w Hp) as Hlive.
  fold s1 w1 in Hlive.
  unfold emscriptenhttp_stream_write_single, emscriptenhttp_do_post.
  unfold mbind at 1, M_bind at 1, load_stream at 1. rewrite Hp.
  assert ((if connectionNo s =? -1
           then c ← (r ← host_invoke js
                          (emscriptenhttpconnect (UTF8ToString (service_url s))
                             DEFAULT_BUFSIZE (Some "POST"%string)
                             [("Content-Type"%string,
                               content_type (UTF8ToString (service_url s)))]);
                     mret (to_int r));
                store_stream p (set_connectionNo c s)
           else mret ()) w = Some (tt, w1)) as Hopen.
  { subst w1. unfold opened_world, opened_stream, post_call.
    destruct (connectionNo s =? -1); unfold_M; done. }
  unfold mbind at 1, M_bind at 1. rewrite Hopen.
  unfold mbind at 1, M_bind at 1, load_stream at 1. rewrite Hlive.
  unfold_M. done.
Qed.

End Stream_facts.

(** ** Reads *)

Section Read_claims.

Variable js : host_runtime.
Variables GIT_SERVICE_UPLOADPACK_LS GIT_SERVICE_UPLOADPACK
          GIT_SERVICE_RECEIVEPACK_LS GIT_SERVICE_RECEIVEPACK : Z.

Local Abbreviation run_api' :=
  (run_api js GIT_SERVICE_UPLOADPACK_LS GIT_SERVICE_UPLOADPACK
           GIT_SERVICE_RECEIVEPACK_LS GIT_SERVICE_RECEIVEPACK).

(** The read of a call is the last thing its log records. *)
Lemma stream_read_last p buffer buf_size bytes_read s w res :
  heap w !! p = Some (Obj_stream s) ->
  emscriptenhttp_stream_read js p buffer buf_size bytes_read w = Some res ->
  last (host_log res.2) =
  Some (HostEvent
          (emscriptenhttpread
             (connectionNo (opened_stream js (get_call s) s w))
             buffer buf_size)
          (read_answer js p buffer buf_size s w)).
Proof.
  intros Hp. rewrite (stream_read_eq js p buffer buf_size bytes_read s w Hp).
  fold (read_answer js p buffer buf_size s w).
  intros [= <-].
  destruct (read_value _ <? 0); simpl; apply last_snoc.
Qed.

Lemma stream_read_dead p buffer buf_size bytes_read w :
  (forall s, heap w !! p <> Some (Obj_stream s)) ->
  emscriptenhttp_stream_read js p buffer buf_size bytes_read w = None.
Proof.
  intros Hp. unfold emscriptenhttp_stream_read.
  unfold mbind at 1, M_bind at 1, load_stream at 1.
  destruct (heap w !! p) as [[s|t]|] eqn:E; [|done..].
  by destruct (Hp s).
Qed.

Lemma stream_write_error p buffer len w rc w' :
  emscriptenhttp_stream_write_single js p buffer len w = Some (rc, w') ->
  rc = 0 /\ git_error w' = git_error w.
Proof.
  destruct (heap w !! p) as [[s|t]|] eqn:E.
  - rewrite (stream_write_eq js p buffer len s w E). intros [= <- <-].
    split; [done|]. simpl. apply opened_world_error.
  - unfold emscriptenhttp_stream_write_single.
    unfold mbind at 1, M_bind at 1, load_stream at 1. by rewrite E.
  - unfold emscriptenhttp_stream_write_single.
    unfold mbind at 1, M_bind at 1, load_stream at 1. by rewrite E.
Qed.

(** Allocation, the lifecycle calls and the action leave the last error
    alone. *)
Lemma lifecycle_error call rc w w' :
  match call with
  | Api_stream_read _ _ _ _ | Api_stream_write _ _ _ => False
  | _ => True
  end ->
  run_api' call w = Some (rc, w') ->
  git_error w' = git_error w.
Proof.
  destruct call as [out own|cell t url action|t|t| | |s]; intros Hc; try done;
    unfold run_api, git_smart_subtransport_http, emscriptenhttp_action,
      emscriptenhttp_stream_alloc, emscriptenhttp_close, emscriptenhttp_free,
      emscriptenhttp_stream_free, store_subtransport.
  - destruct out; unfold_M; simpl; by intros [= <- <-].
  - unfold_M. simpl. rewrite lookup_insert_eq. by intros [= <- <-].
  - unfold_M. by intros [= <- <-].
  - unfold_M. by intros [= <- <-].
  - unfold_M. by intros [= <- <-].
Qed.

(** The answers of the host that the variable [read] holds as a negative
    number. *)
Lemma read_value_neg_iff (r : Z) :
  read_value r < 0 <-> 2 ^ 31 <= r mod 2 ^ 32.
Proof.
  unfold read_value, to_int, to_size_t, wrap_signed, wrap_unsigned.
  replace (2 ^ (32 - 1)) with 2147483648 by reflexivity.
  replace (2 ^ 32) with 4294967296 by reflexivity.
  replace (2 ^ 31) with 2147483648 by reflexivity.
  pose proof (Z.mod_pos_bound r 4294967296 eq_refl) as Hb.
  destruct (Z_lt_le_dec (r mod 4294967296) 2147483648) as [Hlt|Hge].
  - rewrite (Z.mod_small (r mod 4294967296 + 2147483648)) by lia. lia.
  - replace (r mod 4294967296 + 2147483648)
      with (r mod 4294967296 - 2147483648 + 1 * 4294967296) by lia.
    rewrite Z_mod_plus_full, Z.mod_small by lia. lia.
Qed.

(** The statuses of the calls that are neither a read nor a write. *)
Lemma lifecycle_status call rc w w' :
  match call with
  | Api_stream_read _ _ _ _ | Api_stream_write _ _ _ => False
  | _ => True
  end ->
  run_api' call w = Some (rc, w') ->
  rc = 0 \/
  exists own, call = Api_subtransport_http None own /\ rc = -1 /\ w' = w.
Proof.
  destruct call as [out own|cell t url action|t|t| | |s]; intros Hc; try done;
    unfold run_api, git_smart_subtransport_http, emscriptenhttp_action,
      emscriptenhttp_stream_alloc, emscriptenhttp_close, emscriptenhttp_free,
      emscriptenhttp_stream_free, store_subtransport.
  - destruct out; unfold_M; simpl; intros [= <- <-]; [by left|].
    right. by exists own.
  - unfold_M. simpl. rewrite lookup_insert_eq. intros [= <- <-]. by left.
  - unfold_M. intros [= <- <-]. by left.
  - unfold_M. intros [= <- <-]. by left.
  - unfold_M. intros [= <- <-]. by left.
Qed.

(** C2, as the code has it: whenever the read primitive of the host
    answers a negative value that fits the 32-bit [int] the read stores it
    in (from -2^31 to -1), the read fails with status [-1], records the
    error "request aborted by user" and leaves the caller's [bytes_read]
    as it was. This is the only error the module reports: over all its
    entry points the last error changes only in a read whose answer is
    negative as a 32-bit [int] (the answer modulo 2^32 is 2^31 or more),
    and a call returns a status other than [0] only in that case or, with
    no error recorded and nothing changed, when the constructor is given a
    null out-pointer. *)
Theorem read_negative_answer_aborts p buffer buf_size bytes_read s w :
  heap w !! p = Some (Obj_stream s) ->
  (INT_MIN <= read_answer js p buffer buf_size s w < 0 ->
   exists c w',
     emscriptenhttp_stream_read js p buffer buf_size bytes_read w =
       Some (-1, bytes_read, w') /\
     git_error w' = aborted_by_user /\
     last (host_log w') =
       Some (HostEvent (emscriptenhttpread c buffer buf_size)
                       (read_answer js p buffer buf_size s w))) /\
  (forall call rc w',
     run_api js GIT_SERVICE_UPLOADPACK_LS GIT_SERVICE_UPLOADPACK
       GIT_SERVICE_RECEIVEPACK_LS GIT_SERVICE_RECEIVEPACK call w =
       Some (rc, w') ->
     git_error w' <> git_error w ->
     exists q b n br t,
       call = Api_stream_read q b n br /\
       heap w !! q = Some (Obj_stream t) /\
       2 ^ 31 <= read_answer js q b n t w mod 2 ^ 32 /\
       rc = -1 /\ git_error w' = aborted_by_user) /\
  (forall call rc w',
     run_api js GIT_SERVICE_UPLOADPACK_LS GIT_SERVICE_UPLOADPACK
       GIT_SERVICE_RECEIVEPACK_LS GIT_SERVICE_RECEIVEPACK call w =
       Some (rc, w') ->
     rc <> 0 ->
     (exists own,
        call = Api_subtransport_http None own /\ rc = -1 /\ w' = w) \/
     (exists q b n br t,
        call = Api_stream_read q b n br /\
        heap w !! q = Some (Obj_stream t) /\
        2 ^ 31 <= read_answer js q b n t w mod 2 ^ 32 /\
        rc = -1 /\ git_error w' = aborted_by_user)).
Proof.
  intros Hp.
  assert (forall q b n br rc w',
            run_api' (Api_stream_read q b n br) w = Some (rc, w') ->
            (rc = 0 /\ git_error w' = git_error w) \/
            exists t,
              heap w !! q = Some (Obj_stream t) /\
              2 ^ 31 <= read_answer js q b n t w mod 2 ^ 32 /\
              rc = -1 /\ git_error w' = aborted_by_user) as Hread.
  { intros q b n br rc w' Hrun. simpl in Hrun. unfold mbind, M_bind in Hrun.
    destruct (heap w !! q) as [[t|t]|] eqn:E.
    - rewrite (stream_read_eq js q b n br t w E) in Hrun.
      cbv zeta in Hrun. fold (read_answer js q b n t w) in Hrun.
      destruct (read_value (read_answer js q b n t w) <? 0) eqn:Hneg.
      + apply Z.ltb_lt, read_value_neg_iff in Hneg. simpl in Hrun.
        injection Hrun as <- <-. right. by exists t.
      + simpl in Hrun. injection Hrun as <- <-. left. split; [done|].
        simpl. apply opened_world_error.
    - rewrite stream_read_dead in Hrun; [done|]. intros t'. by rewrite E.
    - rewrite stream_read_dead in Hrun; [done|]. intros t'. by rewrite E. }
  split; [|split].
  - intros Hneg.
    pose proof (stream_read_eq js p buffer buf_size bytes_read s w Hp) as Heq.
    cbv zeta in Heq. fold (read_answer js p buffer buf_size s w) in Heq.
    rewrite read_value_id in Heq by (unfold INT_MIN, INT_MAX in *; lia).
    destruct (Z.ltb_spec (read_answer js p buffer buf_size s w) 0); [|lia].
    eexists _, _. split; [exact Heq|]. split; [done|]. simpl. apply last_snoc.
  - intros call rc w' Hrun Herr.
    destruct call as [out own|cell t url action|t|t|q b n br|q b n|q];
      try (exfalso; apply Herr;
           by eapply (lifecycle_error _ rc w w'); [|exact Hrun]).
    + destruct (Hread q b n br rc w' Hrun) as [[_ He]|(t & Ht & Hneg & Hrc & He)];
        [by destruct Herr|].
      by exists q, b, n, br, t.
    + exfalso. apply Herr. simpl in Hrun.
      by destruct (stream_write_error _ _ _ _ _ _ Hrun).
  - intros call rc w' Hrun Hrc.
    destruct call as [out own|cell t url action|t|t|q b n br|q b n|q];
      try (left; eapply lifecycle_status in Hrun; [|exact I];
           destruct Hrun as [H0|Hnull]; [by destruct Hrc|exact Hnull]).
    + destruct (Hread q b n br rc w' Hrun) as [[H0 _]|(t & Ht & Hneg & Hr & He)];
        [done|].
      right. by exists q, b, n, br, t.
    + simpl in Hrun. by destruct (stream_write_error _ _ _ _ _ _ Hrun).
Qed.

End Read_claims.

Section Transfer_claims.

Variable js : host_runtime.

(** C5, as the code has it: whenever the read primitive of the host
    answers a value from [0] to [INT_MAX] = 2^31 - 1, the read succeeds,
    records no error and reports exactly that value as [bytes_read]; the
    count reported is within the capacity whenever the answer of the host
    is (the capacity is passed to the host and the answer is not clamped),
    and an answer of zero is a successful read of zero bytes, which is all
    that marks the end of the data. *)
Theorem read_reports_host_count p buffer buf_size bytes_read s w :
  heap w !! p = Some (Obj_stream s) ->
  0 <= read_answer js p buffer buf_size s w <= INT_MAX ->
  exists c n w',
    emscriptenhttp_stream_read js p buffer buf_size bytes_read w =
      Some (0, n, w') /\
    last (host_log w') =
      Some (HostEvent (emscriptenhttpread c buffer buf_size)
                      (read_answer js p buffer buf_size s w)) /\
    n = read_answer js p buffer buf_size s w /\
    git_error w' = git_error w /\
    (read_answer js p buffer buf_size s w <= buf_size -> n <= buf_size) /\
    (read_answer js p buffer buf_size s w = 0 -> n = 0).
Proof.
  intros Hp Hr.
  pose proof (stream_read_eq js p buffer buf_size bytes_read s w Hp) as Heq.
  cbv zeta in Heq. fold (read_answer js p buffer buf_size s w) in Heq.
  rewrite read_value_id in Heq by (unfold INT_MIN, INT_MAX in *; lia).
  destruct (Z.ltb_spec (read_answer js p buffer buf_size s w) 0); [lia|].
  rewrite to_size_t_id in Heq by (unfold INT_MAX in *; lia).
  eexists _, _, _. split; [exact Heq|].
  split; [apply last_snoc|]. split; [done|].
  split; [apply opened_world_error|]. split; intros; lia.
Qed.

(** C6: a write on a stream returns the success status [0] whatever the
    host answers to the write: the answer is logged by the host call and
    goes no further, and no error is recorded. *)
Theorem write_always_succeeds p buffer len s w :
  heap w !! p = Some (Obj_stream s) ->
  exists c r w',
    emscriptenhttp_stream_write_single js p buffer len w = Some (0, w') /\
    last (host_log w') = Some (HostEvent (emscriptenhttpwrite c buffer len) r) /\
    git_error w' = git_error w.
Proof.
  intros Hp.
  rewrite (stream_write_eq js p buffer len s w Hp).
  eexists _, _, _. split; [done|]. split; [apply last_snoc|].
  apply opened_world_error.
Qed.

End Transfer_claims.

(** A sample of C6's statement: a write on the unopened stream of
    [one_stream_world]. *)
Lemma write_always_succeeds_witness :
  exists c r w',
    emscriptenhttp_stream_write_single numbering_host 2%positive 200 5
      (one_stream_world "http://host/repo/git-receive-pack") = Some (0, w') /\
    last (host_log w') = Some (HostEvent (emscriptenhttpwrite c 200 5) r) /\
    git_error w' = None.
Proof.
  apply (write_always_succeeds numbering_host 2%positive 200 5
           (fresh_stream "http://host/repo/git-receive-pack")).
  reflexivity.
Defined.

(** A sample of C5's statement: the host fills a buffer of ten bytes. *)
Lemma read_reports_host_count_witness :
  exists c n w',
    emscriptenhttp_stream_read numbering_host 2%positive 100 10 0
      (one_stream_world "u") = Some (0, n, w') /\
    last (host_log w') = Some (HostEvent (emscriptenhttpread c 100 10) 10) /\
    n = 10 /\
    git_error w' = None /\
    (10 <= 10 -> n <= 10) /\
    (10 = 0 -> n = 0).
Proof.
  apply (read_reports_host_count numbering_host 2%positive 100 10 0
           (fresh_stream "u") (one_stream_world "u")).
  - reflexivity.
  - vm_compute. split; discriminate.
Defined.

(** C5 as stated fails: a host that answers more bytes than the buffer
    holds has its count reported as it is, above the capacity. *)
Lemma read_count_above_capacity :
  exists w',
    emscriptenhttp_stream_read overfull_host 2%positive 100 4 0
      (one_stream_world "u") = Some (0, 10, w') /\
    4 < 10.
Proof. eexists. split; [vm_compute; reflexivity | lia]. Qed.

(** A sample of C2's statement: the host aborts the read. *)
Lemma read_negative_answer_aborts_witness :
  exists c w',
    emscriptenhttp_stream_read aborting_host 2%positive 100 10 77
      (one_stream_world "u") = Some (-1, 77, w') /\
    git_error w' = aborted_by_user /\
    last (host_log w') = Some (HostEvent (emscriptenhttpread c 100 10) (-1)).
Proof.
  apply (read_negative_answer_aborts aborting_host 1 2 3 4 2%positive 100 10 77
           (fresh_stream "u") (one_stream_world "u")).
  - reflexivity.
  - vm_compute. split; [discriminate|reflexivity].
Defined.

(** C2 as stated fails: a negative answer below the least [int] turns
    positive in the [int] the read stores it in, and the read succeeds. *)
Lemma read_succeeds_on_answer_below_int_min :
  exists w',
    emscriptenhttp_stream_read underflow_host 2%positive 100 10 77
      (one_stream_world "u") = Some (0, 2147483647, w') /\
    last (host_log w') =
      Some (HostEvent (emscriptenhttpread 0 100 10) (-2147483649)) /\
    -2147483649 < 0 /\
    git_error w' = None.
Proof.
  eexists. split; [vm_compute; reflexivity|].
  split; [reflexivity|]. split; [reflexivity|reflexivity].
Qed.

(** ** Sequences of reads and writes on one stream *)

Section Sequences.

Variable js : host_runtime.

Lemma opened_stream_set c s w :
  connectionNo s <> UNOPENED -> opened_stream js c s w = s.
Proof.
  unfold UNOPENED, opened_stream. intros Hc.
  destruct (Z.eqb_spec (connectionNo s) (-1)); [done|done].
Qed.

Lemma opened_world_set c p s w :
  connectionNo s <> UNOPENED -> opened_world js c p s w = w.
Proof.
  unfold UNOPENED, opened_world. intros Hc.
  destruct (Z.eqb_spec (connectionNo s) (-1)); [done|done].
Qed.

(** One call: the connection check, then one call on the connection. *)
Lemma run_op_step o p s w :
  heap w !! p = Some (Obj_stream s) ->
  exists rc w' e,
    run_op js p o w = Some (rc, w') /\
    heap w' !! p = Some (Obj_stream (opened_stream js (open_call o s) s w)) /\
    host_log w' = host_log (opened_world js (open_call o s) p s w) ++ [e] /\
    on_connection (connectionNo (opened_stream js (open_call o s) s w)) e.
Proof.
  intros Hp. destruct o as [buffer buf_size bytes_read|buffer len]; simpl.
  - unfold mbind, M_bind.
    rewrite (stream_read_eq js p buffer buf_size bytes_read s w Hp).
    cbv zeta. destruct (read_value _ <? 0); simpl.
    + eexists _, _, _. split; [done|]. simpl.
      split; [by apply opened_world_live|]. split; done.
    + eexists _, _, _. split; [done|]. simpl.
      split; [by apply opened_world_live|]. split; done.
  - rewrite (stream_write_eq js p buffer len s w Hp). cbv zeta.
    eexists _, _, _. split; [done|]. simpl.
    split; [by apply opened_world_live|]. split; done.
Qed.

Lemma run_ops_cons p o ops w rc w1 rcs w' :
  run_op js p o w = Some (rc, w1) ->
  run_ops js p ops w1 = Some (rcs, w') ->
  run_ops js p (o :: ops) w = Some (rc :: rcs, w').
Proof.
  intros H1 H2. simpl. unfold mbind, M_bind. rewrite H1, H2. done.
Qed.

(** Once the handle is set, every call goes to that connection. *)
Lemma run_ops_connected p ops : forall s w,
  heap w !! p = Some (Obj_stream s) ->
  connectionNo s <> UNOPENED ->
  exists rcs w' evs,
    run_ops js p ops w = Some (rcs, w') /\
    heap w' !! p = Some (Obj_stream s) /\
    host_log w' = host_log w ++ evs /\
    Forall (on_connection (connectionNo s)) evs.
Proof.
  induction ops as [|o ops IH]; intros s w Hp Hc.
  - exists [], w, []. rewrite app_nil_r. done.
  - destruct (run_op_step o p s w Hp) as (rc & w1 & e & Hrun & Hp1 & Hlog & He).
    rewrite opened_stream_set in Hp1, He by done.
    rewrite opened_world_set in Hlog by done.
    destruct (IH s w1 Hp1 Hc) as (rcs & w' & evs & Hruns & Hp' & Hlog' & Hevs).
    exists (rc :: rcs), w', (e :: evs).
    split; [by eapply run_ops_cons|]. split; [done|].
    split; [|by constructor].
    rewrite Hlog', Hlog. by rewrite <- app_assoc.
Qed.

(** The first call on an unopened stream opens the connection. *)
Lemma run_op_unopened o p s w :
  heap w !! p = Some (Obj_stream s) ->
  connectionNo s = UNOPENED ->
  let r := js (host_log w) (open_call o s) in
  exists rc w1 e,
    run_op js p o w = Some (rc, w1) /\
    heap w1 !! p = Some (Obj_stream (set_connectionNo (to_int r) s)) /\
    host_log w1 = host_log w ++ [HostEvent (open_call o s) r; e] /\
    on_connection (to_int r) e.
Proof.
  intros Hp Hc r.
  destruct (run_op_step o p s w Hp) as (rc & w1 & e & Hrun & Hp1 & Hlog & He).
  rewrite opened_world_log in Hlog.
  unfold opened_stream in Hp1, He. unfold UNOPENED in Hc.
  rewrite Hc in Hp1, He, Hlog. simpl in Hp1, He, Hlog.
  exists rc, w1, e. split; [done|]. split; [done|].
  split; [|done]. by rewrite Hlog, <- app_assoc.
Qed.

(** A whole sequence on an unopened stream, given a host that hands out
    proper handles: one opening call, then calls on that connection. *)
Lemma run_ops_unopened p o ops s w :
  heap w !! p = Some (Obj_stream s) ->
  connectionNo s = UNOPENED ->
  proper_handles js ->
  let r := js (host_log w) (open_call o s) in
  exists rc w1 rcs w' evs,
    run_op js p o w = Some (rc, w1) /\
    run_ops js p (o :: ops) w = Some (rc :: rcs, w') /\
    (exists e, host_log w1 = host_log w ++ [HostEvent (open_call o s) r; e] /\
               on_connection (to_int r) e) /\
    host_log w' = host_log w ++ HostEvent (open_call o s) r :: evs /\
    Forall (on_connection (to_int r)) evs.
Proof.
  intros Hp Hc Hjs r.
  destruct (run_op_unopened o p s w Hp Hc)
    as (rc & w1 & e & Hrun & Hp1 & Hlog & He). fold r in Hp1, Hlog, He.
  assert (connectionNo (set_connectionNo (to_int r) s) <> UNOPENED) as Hset.
  { simpl. subst r. destruct o; apply Hjs. }
  destruct (run_ops_connected p ops _ w1 Hp1 Hset)
    as (rcs & w' & evs & Hruns & _ & Hlog' & Hevs).
  simpl in Hevs.
  exists rc, w1, rcs, w', (e :: evs).
  split; [done|]. split; [by eapply run_ops_cons|].
  split; [by exists e|]. split; [|by constructor].
  rewrite Hlog', Hlog. by rewrite <- app_assoc.
Qed.

Lemma open_call_connect o s r : is_connect (HostEvent (open_call o s) r) = true.
Proof. by destruct o. Qed.

Lemma gets_get_call s r : gets [HostEvent (get_call s) r] = 1%nat.
Proof. reflexivity. Qed.

Lemma posts_get_call s r : posts [HostEvent (get_call s) r] = 0%nat.
Proof. reflexivity. Qed.

Lemma gets_post_call s r : gets [HostEvent (post_call s) r] = 0%nat.
Proof. reflexivity. Qed.

Lemma posts_post_call s r : posts [HostEvent (post_call s) r] = 1%nat.
Proof. reflexivity. Qed.

Lemma opens_open_call o s r : opens [HostEvent (open_call o s) r] = 1%nat.
Proof.
  unfold opens. rewrite filter_cons, filter_nil.
  by rewrite open_call_connect, decide_True.
Qed.

End Sequences.

(** The answers of the host that the [int] handle holds as the unopened
    mark: those congruent to [-1] modulo 2^32. *)
Lemma to_int_sentinel_iff (a : Z) :
  to_int a = UNOPENED <-> a mod 2 ^ 32 = 2 ^ 32 - 1.
Proof.
  unfold to_int, wrap_signed, UNOPENED.
  replace (2 ^ (32 - 1)) with 2147483648 by reflexivity.
  replace (2 ^ 32) with 4294967296 by reflexivity.
  rewrite <- (Zplus_mod_idemp_l a).
  pose proof (Z.mod_pos_bound a 4294967296 eq_refl) as Hb.
  destruct (Z_lt_le_dec (a mod 4294967296) 2147483648) as [Hlt|Hge].
  - rewrite (Z.mod_small (a mod 4294967296 + 2147483648)) by lia. lia.
  - replace (a mod 4294967296 + 2147483648)
      with (a mod 4294967296 - 2147483648 + 1 * 4294967296) by lia.
    rewrite Z_mod_plus_full, Z.mod_small by lia. lia.
Qed.

Lemma proper_handles_iff (js : host_runtime) :
  proper_handles js <->
  forall log url buf_size method headers,
    js log (emscriptenhttpconnect url buf_size method headers) mod 2 ^ 32
    <> 2 ^ 32 - 1.
Proof.
  unfold proper_handles.
  split; intros H log url buf_size method headers E;
    apply (H log url buf_size method headers);
    by apply to_int_sentinel_iff.
Qed.

Lemma numbering_host_answers :
  forall log url buf_size method headers,
    numbering_host log (emscriptenhttpconnect url buf_size method headers)
      mod 2 ^ 32 <> 2 ^ 32 - 1.
Proof.
  intros log url buf_size method headers. unfold numbering_host.
  pose proof (Z.mod_pos_bound (Z.of_nat (opens log)) 1024 eq_refl) as Hb.
  replace (2 ^ 32) with 4294967296 by reflexivity.
  rewrite Z.mod_small; lia.
Qed.

Lemma numbering_host_proper : proper_handles numbering_host.
Proof.
  intros log url buf_size method headers. unfold numbering_host, UNOPENED.
  pose proof (Z.mod_pos_bound (Z.of_nat (opens log)) 1024 eq_refl) as Hb.
  rewrite to_int_id; [lia|]. unfold INT_MIN, INT_MAX. lia.
Qed.

Section Connection_claims.

Variable js : host_runtime.

(** C3, as the code has it: provided the host never answers an opening
    call with a value that is the unopened mark [-1] once it is stored in
    the 32-bit [int] handle (a value congruent to [-1] modulo 2^32, such
    as [-1] or 4294967295), a sequence of reads and writes on an unopened
    stream invokes the connection-opening primitive exactly once, in its
    first call; and on a stream whose handle is set, no call of the
    sequence invokes it. *)
Theorem connection_opened_once p s w :
  heap w !! p = Some (Obj_stream s) ->
  (forall log url buf_size method headers,
     js log (emscriptenhttpconnect url buf_size method headers) mod 2 ^ 32
     <> 2 ^ 32 - 1) ->
  (connectionNo s = UNOPENED ->
   forall o ops, exists rc w1 rcs w',
     run_op js p o w = Some (rc, w1) /\
     run_ops js p (o :: ops) w = Some (rc :: rcs, w') /\
     opens (host_log w1) = S (opens (host_log w)) /\
     opens (host_log w') = S (opens (host_log w))) /\
  (connectionNo s <> UNOPENED ->
   forall ops, exists rcs w',
     run_ops js p ops w = Some (rcs, w') /\
     opens (host_log w') = opens (host_log w)).
Proof.
  intros Hp Hjs%proper_handles_iff. split.
  - intros Hc o ops.
    destruct (run_ops_unopened js p o ops s w Hp Hc Hjs)
      as (rc & w1 & rcs & w' & evs & Hrun & Hruns & (e & Hlog1 & He)
          & Hlog & Hevs).
    exists rc, w1, rcs, w'. split; [done|]. split; [done|].
    pose proof (on_connection_opens _ [e] (proj2 (Forall_singleton _ _) He))
      as (Ho1 & _ & _).
    pose proof (on_connection_opens _ evs Hevs) as (Ho & _ & _).
    rewrite Hlog1, Hlog.
    change (?x :: e :: nil) with ([x] ++ [e]).
    change (?x :: evs) with ([x] ++ evs).
    rewrite !opens_app, Ho1, Ho, opens_open_call. lia.
  - intros Hc ops.
    destruct (run_ops_connected js p ops s w Hp Hc)
      as (rcs & w' & evs & Hruns & _ & Hlog & Hevs).
    exists rcs, w'. split; [done|].
    pose proof (on_connection_opens _ evs Hevs) as (Ho & _ & _).
    rewrite Hlog, opens_app, Ho. lia.
Qed.

(** C9, as the code has it: provided the host never answers an opening
    call with a value that is the unopened mark [-1] once it is stored in
    the 32-bit [int] handle (a value congruent to [-1] modulo 2^32, such
    as [-1] or 4294967295), the first call on an unopened stream opens the
    connection (a read with GET, a write with POST), every later read and
    write of the sequence is made on the handle that call obtained, and
    none invokes an opening primitive: no POST follows an opening read and
    no GET follows an opening write. *)
Theorem connection_shared_by_reads_and_writes p s w o ops :
  heap w !! p = Some (Obj_stream s) ->
  connectionNo s = UNOPENED ->
  (forall log url buf_size method headers,
     js log (emscriptenhttpconnect url buf_size method headers) mod 2 ^ 32
     <> 2 ^ 32 - 1) ->
  exists rcs w' evs,
    run_ops js p (o :: ops) w = Some (rcs, w') /\
    host_log w' =
      host_log w ++
      HostEvent (open_call o s) (js (host_log w) (open_call o s)) :: evs /\
    Forall (on_connection (to_int (js (host_log w) (open_call o s)))) evs /\
    match o with
    | Op_read _ _ _ =>
        gets (host_log w') = S (gets (host_log w)) /\
        posts (host_log w') = posts (host_log w)
    | Op_write _ _ =>
        posts (host_log w') = S (posts (host_log w)) /\
        gets (host_log w') = gets (host_log w)
    end.
Proof.
  intros Hp Hc Hjs%proper_handles_iff.
  destruct (run_ops_unopened js p o ops s w Hp Hc Hjs)
    as (rc & w1 & rcs & w' & evs & _ & Hruns & _ & Hlog & Hevs).
  exists (rc :: rcs), w', evs. split; [done|]. split; [done|].
  split; [done|].
  pose proof (on_connection_opens _ evs Hevs) as (_ & Hg & Hq).
  rewrite Hlog.
  change (?x :: evs) with ([x] ++ evs).
  rewrite !gets_app, !posts_app, Hg, Hq.
  destruct o; simpl open_call.
  - rewrite gets_get_call, posts_get_call. lia.
  - rewrite gets_post_call, posts_post_call. lia.
Qed.

End Connection_claims.

(** A sample of C3's statement: a read, a write and a read on the
    unopened stream of [one_stream_world]. *)
Lemma connection_opened_once_witness :
  exists rc w1 rcs w',
    run_op numbering_host 2%positive (Op_read 100 10 0)
      (one_stream_world "u") = Some (rc, w1) /\
    run_ops numbering_host 2%positive
      [Op_read 100 10 0; Op_write 200 5; Op_read 100 10 0]
      (one_stream_world "u") = Some (rc :: rcs, w') /\
    opens (host_log w1) = 1%nat /\
    opens (host_log w') = 1%nat.
Proof.
  apply (proj1 (connection_opened_once numbering_host 2%positive
                  (fresh_stream "u") (one_stream_world "u")
                  eq_refl numbering_host_answers) eq_refl).
Defined.

(** C3 as stated fails: when the host answers [-1] to the opening call,
    the handle still reads as unopened and the next call opens again. *)
Lemma connection_opened_twice :
  exists rcs w',
    run_ops refusing_host 2%positive [Op_read 100 10 0; Op_read 100 10 0]
      (one_stream_world "u") = Some (rcs, w') /\
    opens (host_log w') = 2%nat.
Proof. eexists _, _. split; vm_compute; reflexivity. Qed.

(** A sample of C9's statement: a write, then a read and a write. *)
Lemma connection_shared_by_reads_and_writes_witness :
  exists rcs w' evs,
    run_ops numbering_host 2%positive
      [Op_write 200 5; Op_read 100 10 0; Op_write 200 5]
      (one_stream_world "u") = Some (rcs, w') /\
    host_log w' =
      [] ++ HostEvent (post_call (fresh_stream "u")) 0 :: evs /\
    Forall (on_connection 0) evs /\
    posts (host_log w') = 1%nat /\
    gets (host_log w') = 0%nat.
Proof.
  apply (connection_shared_by_reads_and_writes numbering_host 2%positive
           (fresh_stream "u") (one_stream_world "u") (Op_write 200 5)
           [Op_read 100 10 0; Op_write 200 5] eq_refl eq_refl
           numbering_host_answers).
Defined.

(** C9 as stated fails: when the host answers [-1] to the GET of a read,
    the write that follows invokes POST. *)
Lemma post_after_get :
  exists rcs w',
    run_ops refusing_host 2%positive [Op_read 100 10 0; Op_write 200 5]
      (one_stream_world "u") = Some (rcs, w') /\
    host_log w' =
      [ HostEvent (emscriptenhttpconnect "u" 65536 None []) (-1);
        HostEvent (emscriptenhttpread (-1) 100 10) 0;
        HostEvent
          (emscriptenhttpconnect "u" 65536 (Some "POST"%string)
             [("Content-Type"%string,
               "application/x-git-receive-pack-request"%string)]) (-1);
        HostEvent (emscriptenhttpwrite (-1) 200 5) 0 ] /\
    gets (host_log w') = 1%nat /\
    posts (host_log w') = 1%nat.
Proof. eexists _, _. repeat split; vm_compute; reflexivity. Qed.

(** The same happens with a host that never answers [-1] itself: the
    answer 2^32 - 1 is [-1] in the [int] handle, so that the read opens
    with GET and the write that follows opens again with POST. *)
Lemma wrapped_answer_reopens :
  (forall log url buf_size method headers,
     wrapping_host log (emscriptenhttpconnect url buf_size method headers)
     <> -1) /\
  exists rcs w',
    run_ops wrapping_host 2%positive [Op_read 100 10 0; Op_write 200 5]
      (one_stream_world "u") = Some (rcs, w') /\
    opens (host_log w') = 2%nat /\
    gets (host_log w') = 1%nat /\
    posts (host_log w') = 1%nat.
Proof.
  split; [done|]. eexists _, _. repeat split; vm_compute; reflexivity.
Qed.

(** ** Actions *)

Section Action_claims.

Variables GIT_SERVICE_UPLOADPACK_LS GIT_SERVICE_UPLOADPACK
          GIT_SERVICE_RECEIVEPACK_LS GIT_SERVICE_RECEIVEPACK : Z.

Local Abbreviation action_switch' :=
  (action_switch GIT_SERVICE_UPLOADPACK_LS GIT_SERVICE_UPLOADPACK
                 GIT_SERVICE_RECEIVEPACK_LS GIT_SERVICE_RECEIVEPACK).

Local Abbreviation emscriptenhttp_action' :=
  (emscriptenhttp_action GIT_SERVICE_UPLOADPACK_LS GIT_SERVICE_UPLOADPACK
                         GIT_SERVICE_RECEIVEPACK_LS GIT_SERVICE_RECEIVEPACK).

(** The stream an action leaves at the location the allocator picked. *)
Lemma emscriptenhttp_action_eq cell t url action w :
  emscriptenhttp_action' cell t url action w =
  Some (0, Some (fresh (dom (heap w))),
        set_heap
          (<[fresh (dom (heap w)) :=
               Obj_stream
                 (Stream (Some t)
                    (Some fn_emscriptenhttp_stream_read)
                    (Some fn_emscriptenhttp_stream_write_single)
                    (Some fn_emscriptenhttp_stream_free)
                    (Some (git_str_cstr
                             (action_switch' GIT_STR_INIT url action)))
                    (-1))]> (heap w)) w).
Proof.
  unfold emscriptenhttp_action, emscriptenhttp_stream_alloc.
  unfold_M. simpl. rewrite lookup_insert_eq. simpl.
  unfold set_service_url. simpl. by rewrite !insert_insert_eq.
Qed.

Lemma fresh_location_unused (w : world) : heap w !! fresh (dom (heap w)) = None.
Proof. apply not_elem_of_dom, is_fresh. Qed.

Lemma service_codes_distinct :
  NoDup [GIT_SERVICE_UPLOADPACK_LS; GIT_SERVICE_UPLOADPACK;
         GIT_SERVICE_RECEIVEPACK_LS; GIT_SERVICE_RECEIVEPACK] ->
  GIT_SERVICE_UPLOADPACK_LS <> GIT_SERVICE_UPLOADPACK /\
  GIT_SERVICE_UPLOADPACK_LS <> GIT_SERVICE_RECEIVEPACK_LS /\
  GIT_SERVICE_UPLOADPACK_LS <> GIT_SERVICE_RECEIVEPACK /\
  GIT_SERVICE_UPLOADPACK <> GIT_SERVICE_RECEIVEPACK_LS /\
  GIT_SERVICE_UPLOADPACK <> GIT_SERVICE_RECEIVEPACK /\
  GIT_SERVICE_RECEIVEPACK_LS <> GIT_SERVICE_RECEIVEPACK.
Proof.
  rewrite !NoDup_cons, !elem_of_cons, !elem_of_nil. tauto.
Qed.

(** C1: for every base URL, each of the four service actions succeeds and
    leaves a stream whose service URL is the base URL followed by the
    suffix of that action. *)
Theorem action_builds_service_url cell t url w action suffix :
  NoDup [GIT_SERVICE_UPLOADPACK_LS; GIT_SERVICE_UPLOADPACK;
         GIT_SERVICE_RECEIVEPACK_LS; GIT_SERVICE_RECEIVEPACK] ->
  (action, suffix) ∈
    [ (GIT_SERVICE_UPLOADPACK_LS, "/info/refs?service=git-upload-pack"%string);
      (GIT_SERVICE_UPLOADPACK, "/git-upload-pack"%string);
      (GIT_SERVICE_RECEIVEPACK_LS,
       "/info/refs?service=git-receive-pack"%string);
      (GIT_SERVICE_RECEIVEPACK, "/git-receive-pack"%string) ] ->
  exists p st w',
    emscriptenhttp_action
      GIT_SERVICE_UPLOADPACK_LS GIT_SERVICE_UPLOADPACK
      GIT_SERVICE_RECEIVEPACK_LS GIT_SERVICE_RECEIVEPACK
      cell t url action w = Some (0, Some p, w') /\
    heap w' !! p = Some (Obj_stream st) /\
    service_url st = Some (url ++ suffix)%string.
Proof.
  intros Hcodes Hin. rewrite emscriptenhttp_action_eq.
  eexists _, _, _. split; [done|]. simpl.
  split; [apply lookup_insert_eq|]. simpl. f_equal.
  destruct (service_codes_distinct Hcodes) as (H12 & H13 & H14 & H23 & H24 & H34).
  rewrite !elem_of_cons, elem_of_nil in Hin.
  unfold action_switch, git_str_cstr, git_str_printf_ss, GIT_STR_INIT.
  destruct Hin as [Hin|[Hin|[Hin|[Hin|[]]]]]; injection Hin as -> ->;
    repeat match goal with
           | |- context [?a =? ?b] => destruct (Z.eqb_spec a b)
           end;
    solve [done | exfalso; lia].
Qed.

(** C10: an action value that is none of the four services still makes
    the action succeed; it leaves a stream at a location that was unused,
    unopened and with the empty string as its service URL, makes no host
    call and records no error. *)
Theorem unknown_action_yields_empty_url cell t url w action :
  action ∉ [GIT_SERVICE_UPLOADPACK_LS; GIT_SERVICE_UPLOADPACK;
            GIT_SERVICE_RECEIVEPACK_LS; GIT_SERVICE_RECEIVEPACK] ->
  exists p st w',
    emscriptenhttp_action
      GIT_SERVICE_UPLOADPACK_LS GIT_SERVICE_UPLOADPACK
      GIT_SERVICE_RECEIVEPACK_LS GIT_SERVICE_RECEIVEPACK
      cell t url action w = Some (0, Some p, w') /\
    heap w !! p = None /\
    heap w' !! p = Some (Obj_stream st) /\
    service_url st = Some EmptyString /\
    connectionNo st = UNOPENED /\
    host_log w' = host_log w /\
    git_error w' = git_error w.
Proof.
  intros Hout. rewrite emscriptenhttp_action_eq.
  eexists _, _, _. split; [done|].
  split; [apply fresh_location_unused|]. simpl.
  split; [apply lookup_insert_eq|]. simpl.
  split; [|done]. f_equal.
  rewrite !not_elem_of_cons in Hout. destruct Hout as (H1 & H2 & H3 & H4 & _).
  unfold action_switch.
  apply Z.eqb_neq in H1, H2, H3, H4. by rewrite H1, H2, H3, H4.
Qed.

End Action_claims.

(** A sample of C1's statement, with libgit2's numbering of the services. *)
Lemma action_builds_service_url_witness :
  exists p st w',
    emscriptenhttp_action 1 2 3 4 None 1%positive "https://host/repo.git" 3
      empty_world = Some (0, Some p, w') /\
    heap w' !! p = Some (Obj_stream st) /\
    service_url st =
      Some "https://host/repo.git/info/refs?service=git-receive-pack"%string.
Proof.
  apply (action_builds_service_url 1 2 3 4 None 1%positive
           "https://host/repo.git" empty_world 3
           "/info/refs?service=git-receive-pack").
  - apply (bool_decide_unpack _). vm_compute. exact I.
  - do 2 apply list_elem_of_further. apply list_elem_of_here.
Defined.

(** A sample of C10's statement: the action value 9. *)
Lemma unknown_action_yields_empty_url_witness :
  exists p st w',
    emscriptenhttp_action 1 2 3 4 None 1%positive "https://host/repo.git" 9
      empty_world = Some (0, Some p, w') /\
    heap empty_world !! p = None /\
    heap w' !! p = Some (Obj_stream st) /\
    service_url st = Some EmptyString /\
    connectionNo st = UNOPENED /\
    host_log w' = [] /\
    git_error w' = None.
Proof.
  apply (unknown_action_yields_empty_url 1 2 3 4 None 1%positive
           "https://host/repo.git" empty_world 9).
  apply (bool_decide_unpack _). vm_compute. exact I.
Defined.

(** ** Lifecycle *)

(** C7: closing a subtransport returns [0] and changes nothing; freeing
    it is the close followed by the release of its block, and does nothing
    else: no host call, no error. *)
Theorem subtransport_close_then_release (t : loc) (w : world) :
  emscriptenhttp_close t w = Some (0, w) /\
  emscriptenhttp_free t w = (emscriptenhttp_close t;; git__free (Some t)) w /\
  emscriptenhttp_free t w =
    Some (tt, World (delete t (heap w)) (host_log w) (git_error w)).
Proof. done. Qed.

(** C8: freeing a stream releases its block and does nothing else: the
    log of host calls is as it was, whether or not a connection was
    opened, so that the connection is not closed. *)
Theorem stream_free_only_releases (stream : loc) (w : world) :
  exists w',
    emscriptenhttp_stream_free stream w = Some (tt, w') /\
    heap w' = delete stream (heap w) /\
    heap w' !! stream = None /\
    host_log w' = host_log w /\
    git_error w' = git_error w.
Proof.
  eexists. split; [done|]. simpl. split; [done|].
  split; [apply lookup_delete_eq|done].
Qed.

(** On a stream whose connection is open, nothing is said to the host. *)
Lemma stream_free_connected :
  heap (connected_world "u") !! 2%positive =
    Some (Obj_stream (set_connectionNo 7 (fresh_stream "u"))) /\
  emscriptenhttp_stream_free 2%positive (connected_world "u") =
    Some (tt, World ∅ [] None).
Proof. split; [done|]. vm_compute. reflexivity. Qed.

(** ** The content type of a POST *)

Lemma append_cons (c : Ascii.ascii) (a b : string) :
  (String c a ++ b)%string = String c (a ++ b)%string.
Proof. reflexivity. Qed.

Lemma append_nil (b : string) : (EmptyString ++ b)%string = b.
Proof. reflexivity. Qed.

Lemma prefix_app (needle s : string) :
  String.prefix needle s = true <-> exists post, s = (needle ++ post)%string.
Proof.
  revert s. induction needle as [|c needle IH]; intros s; simpl.
  - split; [intros _; by exists s|intros _; by destruct s].
  - destruct s as [|d s]; simpl.
    + split; [done|]. intros [post Hs]. by rewrite append_cons in Hs.
    + destruct (Ascii.ascii_dec c d) as [->|Hne].
      * rewrite IH. split; intros [post Hs]; exists post;
          rewrite append_cons in *; congruence.
      * split; [done|]. intros [post Hs]. rewrite append_cons in Hs.
        congruence.
Qed.

Lemma indexOf_from_found (needle : string) (s : string) :
  forall i, mentions s needle -> 0 <= i -> i <= indexOf_from needle s i.
Proof.
  induction s as [|c s IH]; intros i (pre & post & Hs) Hi;
    cbn [indexOf_from].
  - destruct (String.prefix needle "") eqn:E; [lia|].
    destruct pre; [|by rewrite append_cons in Hs]. rewrite append_nil in Hs.
    assert (String.prefix needle "" = true) as Ht
      by (apply prefix_app; by exists post).
    congruence.
  - destruct (String.prefix needle (String c s)) eqn:E; [lia|].
    destruct pre as [|d pre].
    + rewrite append_nil in Hs.
      assert (String.prefix needle (String c s) = true) as Ht
        by (apply prefix_app; by exists post).
      congruence.
    + rewrite append_cons in Hs. injection Hs as -> ->.
      assert (i + 1 <= indexOf_from needle (pre ++ needle ++ post) (i + 1));
        [|lia].
      apply IH; [by exists pre, post|lia].
Qed.

Lemma indexOf_from_mentions (needle : string) (s : string) :
  forall i, indexOf_from needle s i <> -1 -> mentions s needle.
Proof.
  induction s as [|c s IH]; intros i; cbn [indexOf_from].
  - destruct (String.prefix needle "") eqn:E; [|done].
    intros _. apply prefix_app in E as [post ->]. by exists EmptyString, post.
  - destruct (String.prefix needle (String c s)) eqn:E.
    + intros _. apply prefix_app in E as [post ->]. by exists EmptyString, post.
    + intros Hi. destruct (IH _ Hi) as (pre & post & ->).
      by exists (String c pre), post.
Qed.

(** What the test [indexOf(...) > 0] of [emscriptenhttp_do_post] decides:
    the upload-pack content type is chosen when the URL mentions the
    service without beginning with its name. *)
Lemma content_type_upload_iff (u : string) :
  content_type u = "application/x-git-upload-pack-request"%string <->
  mentions u "git-upload-pack" /\ String.prefix "git-upload-pack" u = false.
Proof.
  unfold content_type, indexOf.
  destruct (Z.ltb_spec 0 (indexOf_from "git-upload-pack" u 0)) as [Hlt|Hge].
  - split; [intros _|done]. split.
    + apply (indexOf_from_mentions _ _ 0). lia.
    + destruct u as [|c u]; [done|].
      revert Hlt. cbn [indexOf_from].
      destruct (String.prefix "git-upload-pack" (String c u)); [lia|done].
  - split; [done|]. intros [(pre & post & Hu) Hpre]. exfalso.
    destruct u as [|c u]; [by destruct pre|].
    revert Hge. cbn [indexOf_from]. rewrite Hpre.
    destruct pre as [|d pre].
    + rewrite append_nil in Hu.
      assert (String.prefix "git-upload-pack" (String c u) = true) as Ht
        by (apply prefix_app; by exists post).
      congruence.
    + rewrite append_cons in Hu. injection Hu as -> ->.
      pose proof (indexOf_from_found "git-upload-pack"
                    (pre ++ "git-upload-pack" ++ post) (0 + 1)) as Hf.
      intros Hge. assert (0 + 1 <= 0); [|lia].
      etrans; [apply Hf|exact Hge]; [by exists pre, post|lia].
Qed.

(** The first write on an unopened stream opens a POST connection whose
    content type is the one [content_type] picks for the service URL. *)
Lemma first_write_posts js p buffer len s w :
  heap w !! p = Some (Obj_stream s) ->
  connectionNo s = UNOPENED ->
  exists r e w',
    emscriptenhttp_stream_write_single js p buffer len w = Some (0, w') /\
    host_log w' =
      host_log w ++
      [ HostEvent
          (emscriptenhttpconnect (UTF8ToString (service_url s))
             DEFAULT_BUFSIZE (Some "POST"%string)
             [("Content-Type"%string,
               content_type (UTF8ToString (service_url s)))]) r;
        e ].
Proof.
  intros Hp Hc.
  rewrite (stream_write_eq js p buffer len s w Hp). cbv zeta.
  eexists _, _, _. split; [done|]. simpl.
  rewrite opened_world_log. unfold UNOPENED in Hc. rewrite Hc. simpl.
  by rewrite <- app_assoc.
Qed.

(** C4 fails on the code: the upload-pack action on the base URL
    ["git-upload-pack"] resolves to a service URL that mentions
    git-upload-pack, and the first write on its stream opens a POST
    connection with the receive-pack content type. *)
Theorem post_content_type_at_index_zero :
  exists p w1 w2,
    emscriptenhttp_action 1 2 3 4 None 1%positive "git-upload-pack" 2
      empty_world = Some (0, Some p, w1) /\
    emscriptenhttp_stream_write_single numbering_host p 200 5 w1 =
      Some (0, w2) /\
    host_log w2 =
      [ HostEvent
          (emscriptenhttpconnect "git-upload-pack/git-upload-pack" 65536
             (Some "POST"%string)
             [("Content-Type"%string,
               "application/x-git-receive-pack-request"%string)]) 0;
        HostEvent (emscriptenhttpwrite 0 200 5) 0 ] /\
    mentions "git-upload-pack/git-upload-pack" "git-upload-pack".
Proof.
  eexists _, _, _. split; [vm_compute; reflexivity|].
  split; [vm_compute; reflexivity|]. split; [reflexivity|].
  by exists EmptyString, "/git-upload-pack"%string.
Qed.

(** ** Further properties of the stream operations *)

Section Stream_effects.

Variable js : host_runtime.

(** Everything one call does: the connection check, one call on the
    connection, a status of [0] or [-1]. *)
Lemma run_op_effect o p s w :
  heap w !! p = Some (Obj_stream s) ->
  exists rc w' e,
    run_op js p o w = Some (rc, w') /\
    heap w' = heap (opened_world js (open_call o s) p s w) /\
    host_log w' = host_log (opened_world js (open_call o s) p s w) ++ [e] /\
    on_connection (connectionNo (opened_stream js (open_call o s) s w)) e /\
    (rc = 0 \/ rc = -1) /\
    (git_error w' = git_error w \/ git_error w' = aborted_by_user).
Proof.
  intros Hp. destruct o as [buffer buf_size bytes_read|buffer len]; simpl.
  - unfold mbind, M_bind.
    rewrite (stream_read_eq js p buffer buf_size bytes_read s w Hp).
    cbv zeta. destruct (read_value _ <? 0); simpl.
    + eexists _, _, _. split; [done|]. simpl. repeat split; auto.
    + eexists _, _, _. split; [done|]. simpl. repeat split; auto.
      left. apply opened_world_error.
  - rewrite (stream_write_eq js p buffer len s w Hp). cbv zeta.
    eexists _, _, _. split; [done|]. simpl. repeat split; auto.
    left. apply opened_world_error.
Qed.

Lemma opens_get_call s r : opens [HostEvent (get_call s) r] = 1%nat.
Proof. reflexivity. Qed.

Lemma opens_post_call s r : opens [HostEvent (post_call s) r] = 1%nat.
Proof. reflexivity. Qed.

Lemma set_connectionNo_same s : set_connectionNo (connectionNo s) s = s.
Proof. by destruct s. Qed.

Lemma set_connectionNo_twice c d s :
  set_connectionNo c (set_connectionNo d s) = set_connectionNo c s.
Proof. done. Qed.

Lemma opened_stream_handle c s w :
  exists h, opened_stream js c s w = set_connectionNo h s.
Proof.
  unfold opened_stream. destruct (connectionNo s =? -1).
  - by eexists.
  - exists (connectionNo s). by rewrite set_connectionNo_same.
Qed.

(** X1: on a stream whose handle is set, a sequence of reads and writes
    changes nothing in the heap, and makes exactly one host call per
    operation, each on that handle. *)
Theorem connected_stream_is_stable p s w ops :
  heap w !! p = Some (Obj_stream s) ->
  connectionNo s <> UNOPENED ->
  exists rcs w' evs,
    run_ops js p ops w = Some (rcs, w') /\
    heap w' = heap w /\
    host_log w' = host_log w ++ evs /\
    length evs = length ops /\
    length rcs = length ops /\
    Forall (on_connection (connectionNo s)) evs.
Proof.
  intros Hp Hc. revert w Hp.
  induction ops as [|o ops IH]; intros w Hp.
  - exists [], w, []. by rewrite app_nil_r.
  - destruct (run_op_effect o p s w Hp)
      as (rc & w1 & e & Hrun & Hheap & Hlog & He & _ & _).
    rewrite opened_stream_set in He by done.
    rewrite opened_world_set in Hheap, Hlog by done.
    assert (heap w1 !! p = Some (Obj_stream s)) as Hp1 by by rewrite Hheap.
    destruct (IH w1 Hp1) as (rcs & w' & evs & Hruns & Hh & Hl & Hn & Hm & Hevs).
    exists (rc :: rcs), w', (e :: evs).
    split; [by eapply run_ops_cons|].
    split; [by rewrite Hh|].
    split; [by rewrite Hl, Hlog, <- app_assoc|].
    simpl. split; [by rewrite Hn|]. split; [by rewrite Hm|]. by constructor.
Qed.

(** X2: whatever the host answers, a sequence of reads and writes on a
    stream runs to its end with a status of [0] or [-1] per call, changes
    no other object of the heap, and changes of the stream itself nothing
    but the connection handle: the service URL, the subtransport and the
    function slots stay as they were. *)
Theorem stream_ops_touch_only_the_handle p s w ops :
  heap w !! p = Some (Obj_stream s) ->
  exists rcs w' h,
    run_ops js p ops w = Some (rcs, w') /\
    heap w' !! p = Some (Obj_stream (set_connectionNo h s)) /\
    (forall q, q <> p -> heap w' !! q = heap w !! q) /\
    length rcs = length ops /\
    Forall (fun rc => rc = 0 \/ rc = -1) rcs.
Proof.
  revert s w. induction ops as [|o ops IH]; intros s w Hp.
  - exists [], w, (connectionNo s). rewrite set_connectionNo_same. done.
  - destruct (run_op_effect o p s w Hp)
      as (rc & w1 & e & Hrun & Hheap & _ & _ & Hrc & _).
    destruct (opened_stream_handle (open_call o s) s w) as [h Hh].
    assert (heap w1 !! p = Some (Obj_stream (set_connectionNo h s))) as Hp1.
    { rewrite Hheap, <- Hh. by apply opened_world_live. }
    destruct (IH _ w1 Hp1) as (rcs & w' & h' & Hruns & Hp' & Hq & Hn & Hrcs).
    exists (rc :: rcs), w', h'.
    split; [by eapply run_ops_cons|].
    split; [by rewrite Hp', set_connectionNo_twice|].
    split.
    { intros q Hne. rewrite (Hq q Hne), Hheap.
      by apply opened_world_other. }
    simpl. split; [by rewrite Hn|]. by constructor.
Qed.

(** X3: whatever the host answers, a call opens a connection exactly when
    it finds the handle at [-1]: a read then makes one GET, a write one
    POST, and the call makes two host calls instead of one. *)
Theorem opening_follows_the_sentinel o p s w :
  heap w !! p = Some (Obj_stream s) ->
  exists rc w',
    run_op js p o w = Some (rc, w') /\
    opens (host_log w') =
      (opens (host_log w) + (if (connectionNo s =? -1)%Z then 1 else 0))%nat /\
    length (host_log w') =
      (length (host_log w) + (if (connectionNo s =? -1)%Z then 2 else 1))%nat /\
    match o with
    | Op_read _ _ _ =>
        gets (host_log w') =
          (gets (host_log w) + (if (connectionNo s =? -1)%Z then 1 else 0))%nat /\
        posts (host_log w') = posts (host_log w)
    | Op_write _ _ =>
        posts (host_log w') =
          (posts (host_log w) + (if (connectionNo s =? -1)%Z then 1 else 0))%nat /\
        gets (host_log w') = gets (host_log w)
    end.
Proof.
  intros Hp.
  destruct (run_op_effect o p s w Hp)
    as (rc & w1 & e & Hrun & _ & Hlog & He & _ & _).
  exists rc, w1. split; [done|].
  rewrite opened_world_log in Hlog.
  pose proof (on_connection_opens _ [e] (proj2 (Forall_singleton _ _) He))
    as (Ho & Hg & Hq).
  rewrite Hlog.
  destruct o; simpl open_call; cbv iota;
    rewrite !opens_app, !gets_app, !posts_app, !length_app, Ho, Hg, Hq;
    destruct (connectionNo s =? -1);
    rewrite ?gets_get_call, ?posts_get_call, ?gets_post_call,
      ?posts_post_call, ?opens_get_call, ?opens_post_call;
    change (opens []) with 0%nat; change (gets []) with 0%nat;
    change (posts []) with 0%nat; simpl; lia.
Qed.

(** X4: the first read on an unopened stream asks the host for a
    connection to the service URL with the buffer size hint 65536 and
    neither method nor headers, stores the answer, converted to [int], as
    the handle of the stream, and reads on that handle with the caller's
    buffer and capacity. *)
Theorem first_read_opens_get p buffer buf_size bytes_read s w :
  heap w !! p = Some (Obj_stream s) ->
  connectionNo s = UNOPENED ->
  exists h rc n r w',
    h = js (host_log w)
           (emscriptenhttpconnect (UTF8ToString (service_url s)) 65536
              None []) /\
    emscriptenhttp_stream_read js p buffer buf_size bytes_read w =
      Some (rc, n, w') /\
    host_log w' =
      host_log w ++
      [ HostEvent
          (emscriptenhttpconnect (UTF8ToString (service_url s)) 65536
             None []) h;
        HostEvent (emscriptenhttpread (to_int h) buffer buf_size) r ] /\
    heap w' = <[p := Obj_stream (set_connectionNo (to_int h) s)]> (heap w).
Proof.
  intros Hp Hc. unfold UNOPENED in Hc.
  rewrite (stream_read_eq js p buffer buf_size bytes_read s w Hp). cbv zeta.
  unfold opened_world, opened_stream. rewrite Hc. simpl.
  destruct (read_value _ <? 0); simpl;
    eexists _, _, _, _, _; (split; [reflexivity|]);
    (split; [reflexivity|]); simpl; (split; [|done]);
    by rewrite <- app_assoc.
Qed.

(** X5: the first write on an unopened stream asks the host for a POST
    connection to the service URL with the buffer size hint 65536 and the
    content type picked from the URL as the only header, stores the answer,
    converted to [int], as the handle of the stream, and writes on that
    handle the caller's buffer and length. *)
Theorem first_write_opens_post p buffer len s w :
  heap w !! p = Some (Obj_stream s) ->
  connectionNo s = UNOPENED ->
  exists h r w',
    h = js (host_log w)
           (emscriptenhttpconnect (UTF8ToString (service_url s)) 65536
              (Some "POST"%string)
              [("Content-Type"%string,
                content_type (UTF8ToString (service_url s)))]) /\
    emscriptenhttp_stream_write_single js p buffer len w = Some (0, w') /\
    host_log w' =
      host_log w ++
      [ HostEvent
          (emscriptenhttpconnect (UTF8ToString (service_url s)) 65536
             (Some "POST"%string)
             [("Content-Type"%string,
               content_type (UTF8ToString (service_url s)))]) h;
        HostEvent (emscriptenhttpwrite (to_int h) buffer len) r ] /\
    heap w' = <[p := Obj_stream (set_connectionNo (to_int h) s)]> (heap w) /\
    git_error w' = git_error w.
Proof.
  intros Hp Hc. unfold UNOPENED in Hc.
  rewrite (stream_write_eq js p buffer len s w Hp). cbv zeta.
  unfold opened_world, opened_stream. rewrite Hc. simpl.
  eexists _, _, _. split; [reflexivity|]. split; [reflexivity|].
  simpl. split; [|done]. by rewrite <- app_assoc.
Qed.

End Stream_effects.

(** ** What the conversions to [int] do to the answer of a read *)

Lemma read_value_wraps (r : Z) :
  2 ^ 31 <= r < 2 ^ 32 -> read_value r = r - 2 ^ 32.
Proof.
  unfold read_value, to_int, to_size_t, wrap_signed, wrap_unsigned.
  replace (2 ^ (32 - 1)) with 2147483648 by reflexivity.
  replace (2 ^ 32) with 4294967296 by reflexivity.
  replace (2 ^ 31) with 2147483648 by reflexivity.
  intros Hr. rewrite (Z.mod_small r) by lia.
  replace (r + 2147483648) with (r - 2147483648 + 1 * 4294967296) by lia.
  rewrite Z_mod_plus_full, Z.mod_small; lia.
Qed.

Section Read_conversions.

Variable js : host_runtime.

(** X6: an answer of the host that fits an [int] is taken as it is: a
    negative one aborts the read, leaving [bytes_read] as it was, and one
    from [0] to [INT_MAX] is the count the read reports, with status [0]
    and no error recorded. *)
Theorem read_takes_int_answers p buffer buf_size bytes_read s w :
  heap w !! p = Some (Obj_stream s) ->
  (INT_MIN <= read_answer js p buffer buf_size s w < 0 ->
   exists w',
     emscriptenhttp_stream_read js p buffer buf_size bytes_read w =
       Some (-1, bytes_read, w') /\
     git_error w' = aborted_by_user) /\
  (0 <= read_answer js p buffer buf_size s w <= INT_MAX ->
   exists w',
     emscriptenhttp_stream_read js p buffer buf_size bytes_read w =
       Some (0, read_answer js p buffer buf_size s w, w') /\
     git_error w' = git_error w).
Proof.
  intros Hp.
  pose proof (stream_read_eq js p buffer buf_size bytes_read s w Hp) as Heq.
  cbv zeta in Heq. fold (read_answer js p buffer buf_size s w) in Heq.
  split; intros Hr.
  - rewrite read_value_id in Heq by (unfold INT_MIN, INT_MAX in *; lia).
    destruct (Z.ltb_spec (read_answer js p buffer buf_size s w) 0); [|lia].
    eexists. split; [exact Heq|done].
  - rewrite read_value_id in Heq by (unfold INT_MIN, INT_MAX in *; lia).
    destruct (Z.ltb_spec (read_answer js p buffer buf_size s w) 0); [lia|].
    rewrite to_size_t_id in Heq by (unfold INT_MAX in *; lia).
    eexists. split; [exact Heq|]. simpl. apply opened_world_error.
Qed.

(** X7: an answer of the host from 2^31 up to 2^32 - 1 does not fit the
    [int] the read stores it in: it turns negative, and the read is
    reported as aborted by the user. *)
Theorem read_aborts_on_answers_above_int_max p buffer buf_size bytes_read s w :
  heap w !! p = Some (Obj_stream s) ->
  2 ^ 31 <= read_answer js p buffer buf_size s w < 2 ^ 32 ->
  exists w',
    emscriptenhttp_stream_read js p buffer buf_size bytes_read w =
      Some (-1, bytes_read, w') /\
    git_error w' = aborted_by_user.
Proof.
  intros Hp Hr.
  pose proof (stream_read_eq js p buffer buf_size bytes_read s w Hp) as Heq.
  cbv zeta in Heq. fold (read_answer js p buffer buf_size s w) in Heq.
  rewrite (read_value_wraps _ Hr) in Heq.
  destruct (Z.ltb_spec (read_answer js p buffer buf_size s w - 2 ^ 32) 0);
    [|lia].
  eexists. split; [exact Heq|done].
Qed.

End Read_conversions.

(** A sample of X1's statement: three calls on a connected stream. *)
Lemma connected_stream_is_stable_witness :
  exists rcs w' evs,
    run_ops numbering_host 2%positive
      [Op_read 100 10 0; Op_write 200 5; Op_read 100 10 0]
      (connected_world "u") = Some (rcs, w') /\
    heap w' = heap (connected_world "u") /\
    host_log w' = [] ++ evs /\
    length evs = 3%nat /\
    length rcs = 3%nat /\
    Forall (on_connection 7) evs.
Proof.
  apply (connected_stream_is_stable numbering_host 2%positive
           (set_connectionNo 7 (fresh_stream "u")) (connected_world "u")
           [Op_read 100 10 0; Op_write 200 5; Op_read 100 10 0]).
  - reflexivity.
  - vm_compute. discriminate.
Defined.

(** A sample of X2's statement: a host that refuses every connection. *)
Lemma stream_ops_touch_only_the_handle_witness :
  exists rcs w' h,
    run_ops refusing_host 2%positive [Op_read 100 10 0; Op_write 200 5]
      (transport_world "u") = Some (rcs, w') /\
    heap w' !! 2%positive =
      Some (Obj_stream (set_connectionNo h (fresh_stream "u"))) /\
    (forall q, q <> 2%positive ->
               heap w' !! q = heap (transport_world "u") !! q) /\
    length rcs = 2%nat /\
    Forall (fun rc => rc = 0 \/ rc = -1) rcs.
Proof.
  apply (stream_ops_touch_only_the_handle refusing_host 2%positive
           (fresh_stream "u") (transport_world "u")
           [Op_read 100 10 0; Op_write 200 5]).
  reflexivity.
Defined.

(** A sample of X3's statement: a write on an unopened stream. *)
Lemma opening_follows_the_sentinel_witness :
  exists rc w',
    run_op numbering_host 2%positive (Op_write 200 5) (one_stream_world "u") =
      Some (rc, w') /\
    opens (host_log w') = 1%nat /\
    length (host_log w') = 2%nat /\
    posts (host_log w') = 1%nat /\
    gets (host_log w') = 0%nat.
Proof.
  apply (opening_follows_the_sentinel numbering_host (Op_write 200 5)
           2%positive (fresh_stream "u") (one_stream_world "u")).
  reflexivity.
Defined.

(** A sample of X4's statement. *)
Lemma first_read_opens_get_witness :
  exists h rc n r w',
    h = 0 /\
    emscriptenhttp_stream_read numbering_host 2%positive 100 10 0
      (one_stream_world "u") = Some (rc, n, w') /\
    host_log w' =
      [] ++
      [ HostEvent (emscriptenhttpconnect "u" 65536 None []) h;
        HostEvent (emscriptenhttpread (to_int h) 100 10) r ] /\
    heap w' =
      <[2%positive := Obj_stream (set_connectionNo (to_int h) (fresh_stream "u"))]>
        (heap (one_stream_world "u")).
Proof.
  apply (first_read_opens_get numbering_host 2%positive 100 10 0
           (fresh_stream "u") (one_stream_world "u")); reflexivity.
Defined.

(** A sample of X5's statement. *)
Lemma first_write_opens_post_witness :
  exists h r w',
    h = 0 /\
    emscriptenhttp_stream_write_single numbering_host 2%positive 200 5
      (one_stream_world "http://host/repo/git-upload-pack") = Some (0, w') /\
    host_log w' =
      [] ++
      [ HostEvent
          (emscriptenhttpconnect "http://host/repo/git-upload-pack" 65536
             (Some "POST"%string)
             [("Content-Type"%string,
               "application/x-git-upload-pack-request"%string)]) h;
        HostEvent (emscriptenhttpwrite (to_int h) 200 5) r ] /\
    heap w' =
      <[2%positive :=
          Obj_stream
            (set_connectionNo (to_int h)
               (fresh_stream "http://host/repo/git-upload-pack"))]>
        (heap (one_stream_world "http://host/repo/git-upload-pack")) /\
    git_error w' = None.
Proof.
  apply (first_write_opens_post numbering_host 2%positive 200 5
           (fresh_stream "http://host/repo/git-upload-pack")
           (one_stream_world "http://host/repo/git-upload-pack"));
    reflexivity.
Defined.

(** A sample of X6's statement: the host fills a buffer of ten bytes. *)
Lemma read_takes_int_answers_witness :
  exists w',
    emscriptenhttp_stream_read numbering_host 2%positive 100 10 0
      (one_stream_world "u") = Some (0, 10, w') /\
    git_error w' = None.
Proof.
  apply (proj2 (read_takes_int_answers numbering_host 2%positive 100 10 0
                  (fresh_stream "u") (one_stream_world "u") eq_refl)).
  vm_compute. split; discriminate.
Defined.

(** A sample of X7's statement: the host answers 2^31. *)
Lemma read_aborts_on_answers_above_int_max_witness :
  exists w',
    emscriptenhttp_stream_read huge_host 2%positive 100 10 77
      (one_stream_world "u") = Some (-1, 77, w') /\
    git_error w' = aborted_by_user.
Proof.
  apply (read_aborts_on_answers_above_int_max huge_host 2%positive 100 10 77
           (fresh_stream "u") (one_stream_world "u")).
  - reflexivity.
  - vm_compute. split; [discriminate|reflexivity].
Defined.

(** ** Allocation and lifecycle *)

Section Lifecycle.

Variable js : host_runtime.
Variables GIT_SERVICE_UPLOADPACK_LS GIT_SERVICE_UPLOADPACK
          GIT_SERVICE_RECEIVEPACK_LS GIT_SERVICE_RECEIVEPACK : Z.

Lemma fresh_location_other (w : world) (q : loc) :
  is_Some (heap w !! q) -> q <> fresh (dom (heap w)).
Proof.
  intros Hq ->. rewrite fresh_location_unused in Hq. by destruct Hq.
Qed.

(** X8: the constructor of the subtransport refuses a null out-pointer
    with [-1] and touches nothing; otherwise it returns [0] and a block the
    heap did not use, holding the owner it was given and the three
    functions of the module in the action, close and free slots, leaves
    every other object as it was, makes no host call and records no
    error. *)
Theorem subtransport_http_constructs (own : option loc) (w : world) :
  git_smart_subtransport_http None own w = Some (-1, None, w) /\
  forall cell, exists p w',
    git_smart_subtransport_http (Some cell) own w =
      Some (0, Some (Some p), w') /\
    heap w !! p = None /\
    heap w' !! p =
      Some (Obj_subtransport
              (Subtransport (Some fn_emscriptenhttp_action)
                            (Some fn_emscriptenhttp_close)
                            (Some fn_emscriptenhttp_free) own)) /\
    (forall q, q <> p -> heap w' !! q = heap w !! q) /\
    host_log w' = host_log w /\
    git_error w' = git_error w.
Proof.
  split; [done|]. intros cell.
  exists (fresh (dom (heap w))). eexists. split; [reflexivity|]. simpl.
  split; [apply fresh_location_unused|].
  split; [apply lookup_insert_eq|].
  split; [|done]. intros q Hq. by rewrite !lookup_insert_ne.
Qed.

(** The allocation of a stream refuses a null out-pointer with [-1]
    and touches nothing; otherwise it returns [0] and a block the heap did
    not use, holding a stream that points back to the subtransport, has
    the read, write and free functions of the module in its slots, no
    service URL yet and the handle [-1]; every other object is as it
    was. *)
Lemma stream_alloc_initialises (t : loc) (w : world) :
  emscriptenhttp_stream_alloc t None w = Some (-1, None, w) /\
  forall cell, exists p w',
    emscriptenhttp_stream_alloc t (Some cell) w =
      Some (0, Some (Some p), w') /\
    heap w !! p = None /\
    heap w' !! p =
      Some (Obj_stream
              (Stream (Some t)
                      (Some fn_emscriptenhttp_stream_read)
                      (Some fn_emscriptenhttp_stream_write_single)
                      (Some fn_emscriptenhttp_stream_free)
                      None UNOPENED)) /\
    (forall q, q <> p -> heap w' !! q = heap w !! q) /\
    host_log w' = host_log w /\
    git_error w' = git_error w.
Proof.
  split; [done|]. intros cell.
  exists (fresh (dom (heap w))). eexists. split; [reflexivity|]. simpl.
  split; [apply fresh_location_unused|].
  split; [apply lookup_insert_eq|].
  split; [|done]. intros q Hq. by rewrite !lookup_insert_ne.
Qed.

(** X10: whatever the action value and the URL, the stream an action
    returns sits in a block the heap did not use, points back to the
    subtransport of the action, carries the read, write and free functions
    of the module and is unopened; the action leaves every other object as
    it was, makes no host call and records no error. *)
Theorem action_binds_stream cell t url action w :
  exists p st w',
    emscriptenhttp_action
      GIT_SERVICE_UPLOADPACK_LS GIT_SERVICE_UPLOADPACK
      GIT_SERVICE_RECEIVEPACK_LS GIT_SERVICE_RECEIVEPACK
      cell t url action w = Some (0, Some p, w') /\
    heap w !! p = None /\
    heap w' !! p = Some (Obj_stream st) /\
    parent_subtransport st = Some t /\
    parent_read st = Some fn_emscriptenhttp_stream_read /\
    parent_write st = Some fn_emscriptenhttp_stream_write_single /\
    parent_free st = Some fn_emscriptenhttp_stream_free /\
    connectionNo st = UNOPENED /\
    (forall q, q <> p -> heap w' !! q = heap w !! q) /\
    host_log w' = host_log w /\
    git_error w' = git_error w.
Proof.
  rewrite emscriptenhttp_action_eq.
  eexists _, _, _. split; [reflexivity|]. simpl.
  split; [apply fresh_location_unused|].
  split; [apply lookup_insert_eq|]. simpl.
  do 5 (split; [done|]).
  split; [|done]. intros q Hq. by rewrite lookup_insert_ne.
Qed.

(** X11: two actions in a row return two different streams, and the
    second action leaves the stream of the first as it was. *)
Theorem actions_give_distinct_streams
    cell1 t1 url1 action1 cell2 t2 url2 action2 w :
  exists p1 st1 w1 p2 w2,
    emscriptenhttp_action
      GIT_SERVICE_UPLOADPACK_LS GIT_SERVICE_UPLOADPACK
      GIT_SERVICE_RECEIVEPACK_LS GIT_SERVICE_RECEIVEPACK
      cell1 t1 url1 action1 w = Some (0, Some p1, w1) /\
    emscriptenhttp_action
      GIT_SERVICE_UPLOADPACK_LS GIT_SERVICE_UPLOADPACK
      GIT_SERVICE_RECEIVEPACK_LS GIT_SERVICE_RECEIVEPACK
      cell2 t2 url2 action2 w1 = Some (0, Some p2, w2) /\
    p1 <> p2 /\
    heap w1 !! p1 = Some (Obj_stream st1) /\
    heap w2 !! p1 = Some (Obj_stream st1).
Proof.
  rewrite emscriptenhttp_action_eq.
  eexists _, _, _. eexists _, _. split; [reflexivity|].
  rewrite emscriptenhttp_action_eq. split; [reflexivity|].
  simpl.
  assert (fresh (dom (heap w)) <>
          fresh (dom (<[fresh (dom (heap w)) :=
                          Obj_stream
                            (Stream (Some t1)
                               (Some fn_emscriptenhttp_stream_read)
                               (Some fn_emscriptenhttp_stream_write_single)
                               (Some fn_emscriptenhttp_stream_free)
                               (Some (git_str_cstr
                                        (action_switch
                                           GIT_SERVICE_UPLOADPACK_LS
                                           GIT_SERVICE_UPLOADPACK
                                           GIT_SERVICE_RECEIVEPACK_LS
                                           GIT_SERVICE_RECEIVEPACK
                                           GIT_STR_INIT url1 action1)))
                               (-1))]> (heap w)))) as Hne.
  { intros Heq.
    pose proof (is_fresh (dom (<[fresh (dom (heap w)) :=
                          Obj_stream
                            (Stream (Some t1)
                               (Some fn_emscriptenhttp_stream_read)
                               (Some fn_emscriptenhttp_stream_write_single)
                               (Some fn_emscriptenhttp_stream_free)
                               (Some (git_str_cstr
                                        (action_switch
                                           GIT_SERVICE_UPLOADPACK_LS
                                           GIT_SERVICE_UPLOADPACK
                                           GIT_SERVICE_RECEIVEPACK_LS
                                           GIT_SERVICE_RECEIVEPACK
                                           GIT_STR_INIT url1 action1)))
                               (-1))]> (heap w)))) as Hf.
    rewrite <- Heq in Hf. apply Hf.
    rewrite dom_insert_L. set_solver. }
  split; [exact Hne|].
  split; [apply lookup_insert_eq|].
  rewrite lookup_insert_ne by (intros E; by apply Hne).
  apply lookup_insert_eq.
Qed.

(** X12: the calls of the interface other than the read and the write of
    a stream (the constructor, the action, close and the two frees) always
    return, never call the host and never record an error: a connection is
    opened no earlier than the first read or write. *)
Theorem lifecycle_calls_are_silent call w :
  is_lifecycle call = true ->
  exists rc w',
    run_api js GIT_SERVICE_UPLOADPACK_LS GIT_SERVICE_UPLOADPACK
      GIT_SERVICE_RECEIVEPACK_LS GIT_SERVICE_RECEIVEPACK call w =
      Some (rc, w') /\
    host_log w' = host_log w /\
    git_error w' = git_error w.
Proof.
  destruct call as [out own|cell t url action|t|t| | |s]; intros Hc;
    try done; simpl.
  - destruct out; by eexists _, _.
  - unfold mbind, M_bind. rewrite emscriptenhttp_action_eq.
    by eexists _, _.
  - by eexists _, _.
  - by eexists _, _.
  - by eexists _, _.
Qed.

(** X13: no call of the interface clears the last error: after any call
    it is what it was before or the abort of a read, so that an abort
    recorded by a read is still there after every later call. *)
Theorem errors_are_never_cleared call rc w w' :
  run_api js GIT_SERVICE_UPLOADPACK_LS GIT_SERVICE_UPLOADPACK
    GIT_SERVICE_RECEIVEPACK_LS GIT_SERVICE_RECEIVEPACK call w =
    Some (rc, w') ->
  (git_error w' = git_error w \/ git_error w' = aborted_by_user) /\
  (git_error w = aborted_by_user -> git_error w' = aborted_by_user).
Proof.
  intros Hrun.
  assert (git_error w' = git_error w \/ git_error w' = aborted_by_user)
    as Hor; [|split; [done|]; intros Hw; destruct Hor; congruence].
  destruct (is_lifecycle call) eqn:Hl.
  - left. eapply (lifecycle_error js); [|exact Hrun].
    by destruct call.
  - destruct call as [| | | |q b n br|q b n|]; try done; simpl in Hrun.
    + unfold mbind, M_bind in Hrun.
      destruct (heap w !! q) as [[t|t]|] eqn:E.
      * rewrite (stream_read_eq js q b n br t w E) in Hrun.
        cbv zeta in Hrun. destruct (read_value _ <? 0); simpl in Hrun;
          injection Hrun as <- <-; [by right|left].
        simpl. apply opened_world_error.
      * rewrite stream_read_dead in Hrun; [done|]. intros t'. by rewrite E.
      * rewrite stream_read_dead in Hrun; [done|]. intros t'. by rewrite E.
    + left. by destruct (stream_write_error js _ _ _ _ _ _ Hrun).
Qed.

Lemma opened_stream_log_only c s w v :
  host_log w = host_log v ->
  opened_stream js c s w = opened_stream js c s v.
Proof. unfold opened_stream. by intros ->. Qed.

Lemma opened_world_log_only c p s w v :
  host_log w = host_log v ->
  host_log (opened_world js c p s w) = host_log (opened_world js c p s v).
Proof. rewrite !opened_world_log. by intros ->. Qed.

(** X14: freeing the subtransport does not free its streams: a stream
    stays in the heap, and a read or write on it returns the same status
    and makes the same host calls after the free as it would have made
    before. *)
Theorem subtransport_free_keeps_streams t tr p s o w :
  heap w !! t = Some (Obj_subtransport tr) ->
  heap w !! p = Some (Obj_stream s) ->
  exists wf rc w1 w2,
    emscriptenhttp_free t w = Some (tt, wf) /\
    heap wf !! t = None /\
    heap wf !! p = Some (Obj_stream s) /\
    run_op js p o w = Some (rc, w1) /\
    run_op js p o wf = Some (rc, w2) /\
    host_log w2 = host_log w1 /\
    heap w2 !! p = heap w1 !! p.
Proof.
  intros Ht Hp.
  assert (t <> p) as Hne by (intros ->; congruence).
  set (wf := World (delete t (heap w)) (host_log w) (git_error w)).
  assert (heap wf !! p = Some (Obj_stream s)) as Hpf
    by (simpl; by rewrite lookup_delete_ne).
  assert (host_log wf = host_log w) as Hlog by done.
  exists wf.
  destruct o as [b n br|b n]; simpl.
  - unfold mbind, M_bind.
    rewrite (stream_read_eq js p b n br s w Hp),
      (stream_read_eq js p b n br s wf Hpf). cbv zeta. unfold log_call.
    rewrite (opened_stream_log_only (get_call s) s wf w Hlog),
      !(opened_world_log_only (get_call s) p s wf w Hlog).
    pose proof (opened_world_live js (get_call s) p s w Hp) as H1.
    pose proof (opened_world_live js (get_call s) p s wf Hpf) as H2.
    rewrite (opened_stream_log_only (get_call s) s wf w Hlog) in H2.
    destruct (read_value _ <? 0); simpl;
      eexists _, _, _; (split; [reflexivity|]);
      (split; [apply lookup_delete_eq|]); (split; [done|]);
      (split; [reflexivity|]); (split; [reflexivity|]); simpl;
      (split; [done|]); by rewrite H1, H2.
  - rewrite (stream_write_eq js p b n s w Hp),
      (stream_write_eq js p b n s wf Hpf). cbv zeta. unfold log_call.
    rewrite (opened_stream_log_only (post_call s) s wf w Hlog),
      !(opened_world_log_only (post_call s) p s wf w Hlog).
    pose proof (opened_world_live js (post_call s) p s w Hp) as H1.
    pose proof (opened_world_live js (post_call s) p s wf Hpf) as H2.
    rewrite (opened_stream_log_only (post_call s) s wf w Hlog) in H2.
    eexists _, _, _. split; [reflexivity|].
    split; [apply lookup_delete_eq|]. split; [done|].
    split; [reflexivity|]. split; [reflexivity|]. simpl.
    split; [done|]. by rewrite H1, H2.
Qed.

End Lifecycle.

(** A sample of X12's statement: an action makes no host call. *)
Lemma lifecycle_calls_are_silent_witness :
  exists rc w',
    run_api numbering_host 1 2 3 4
      (Api_action None 1%positive "https://host/repo.git" 2) empty_world =
      Some (rc, w') /\
    host_log w' = [] /\
    git_error w' = None.
Proof.
  apply (lifecycle_calls_are_silent numbering_host 1 2 3 4
           (Api_action None 1%positive "https://host/repo.git" 2) empty_world).
  reflexivity.
Defined.

(** A sample of X13's statement: a write that succeeds after an abort. *)
Lemma errors_are_never_cleared_witness :
  exists rc w',
    run_api numbering_host 1 2 3 4 (Api_stream_write 2%positive 200 5)
      (World (heap (one_stream_world "u")) [] aborted_by_user) =
      Some (rc, w') /\
    rc = 0 /\
    git_error w' = aborted_by_user.
Proof.
  destruct (run_api numbering_host 1 2 3 4 (Api_stream_write 2%positive 200 5)
              (World (heap (one_stream_world "u")) [] aborted_by_user))
    as [[rc w']|] eqn:E.
  - exists rc, w'. split; [reflexivity|]. split.
    + vm_compute in E. congruence.
    + apply (proj2 (errors_are_never_cleared numbering_host 1 2 3 4
                      _ _ _ _ E)).
      reflexivity.
  - vm_compute in E. discriminate.
Defined.

(** A sample of X14's statement: the subtransport of [transport_world] is
    freed before a read on its stream. *)
Lemma subtransport_free_keeps_streams_witness :
  exists wf rc w1 w2,
    emscriptenhttp_free 1%positive (transport_world "u") = Some (tt, wf) /\
    heap wf !! 1%positive = None /\
    heap wf !! 2%positive = Some (Obj_stream (fresh_stream "u")) /\
    run_op numbering_host 2%positive (Op_read 100 10 0) (transport_world "u") =
      Some (rc, w1) /\
    run_op numbering_host 2%positive (Op_read 100 10 0) wf = Some (rc, w2) /\
    host_log w2 = host_log w1 /\
    heap w2 !! 2%positive = heap w1 !! 2%positive.
Proof.
  apply (subtransport_free_keeps_streams numbering_host 1%positive
           (Subtransport (Some fn_emscriptenhttp_action)
                         (Some fn_emscriptenhttp_close)
                         (Some fn_emscriptenhttp_free) None)
           2%positive (fresh_stream "u") (Op_read 100 10 0)
           (transport_world "u")); reflexivity.
Defined.

(** ** Service URLs and the content type they are posted with *)

Lemma append_nil_r (s : string) : (s ++ "")%string = s.
Proof. induction s as [|c s IH]; [done|]. by rewrite append_cons, IH. Qed.

Lemma append_assoc (a b c : string) :
  ((a ++ b) ++ c)%string = (a ++ b ++ c)%string.
Proof.
  induction a as [|x a IH]; [done|]. by rewrite !append_cons, IH.
Qed.

Lemma length_append (a b : string) :
  String.length (a ++ b) = (String.length a + String.length b)%nat.
Proof.
  induction a as [|x a IH]; [done|]. rewrite append_cons. simpl. by rewrite IH.
Qed.

(** Two ways of cutting one string: one cut is inside a piece of the
    other. *)
Lemma append_split (pre x u v : string) :
  (pre ++ x)%string = (u ++ v)%string ->
  (exists m, u = (pre ++ m)%string /\ x = (m ++ v)%string) \/
  (exists m, pre = (u ++ m)%string /\ v = (m ++ x)%string).
Proof.
  revert u. induction pre as [|c pre IH]; intros u Heq.
  - left. exists u. by rewrite !append_nil in *.
  - destruct u as [|d u].
    + right. exists (String c pre). by rewrite !append_nil in *.
    + rewrite !append_cons in Heq. injection Heq as -> Heq.
      destruct (IH u Heq) as [(m & -> & ->)|(m & -> & ->)].
      * left. exists m. by rewrite append_cons.
      * right. exists m. by rewrite append_cons.
Qed.

Lemma upload_pack_has_no_slash (a b : string) :
  "git-upload-pack"%string = (a ++ "/" ++ b)%string -> False.
Proof.
  intros H.
  do 15 (destruct a as [|? a];
         [rewrite append_nil, append_cons in H; discriminate
         |rewrite append_cons in H; injection H as _ H]).
  destruct a; [rewrite append_nil, append_cons in H|rewrite append_cons in H];
    discriminate.
Qed.

(** Appending a path to a URL that does not begin with the name of the
    service gives a URL that does not begin with it either. *)
Lemma prefix_upload_pack_path (u v : string) :
  String.prefix "git-upload-pack" u = false ->
  String.prefix "git-upload-pack" (u ++ "/" ++ v) = false.
Proof.
  intros Hu.
  destruct (String.prefix "git-upload-pack" (u ++ "/" ++ v)) eqn:E;
    [|done].
  apply prefix_app in E as [post E]. symmetry in E.
  apply append_split in E as [(m & -> & _)|(m & Hn & Hv)].
  - assert (String.prefix "git-upload-pack" ("git-upload-pack" ++ m) = true)
      as Ht by (apply prefix_app; by exists m).
    congruence.
  - destruct m as [|c m].
    + rewrite append_nil_r in Hn. subst u. done.
    + rewrite !append_cons in Hv. injection Hv as <- _.
      destruct (upload_pack_has_no_slash u m Hn).
Qed.

(** The name of the service in a URL followed by a path is in the URL or
    in the path. *)
Lemma mentions_upload_pack_path (u v : string) :
  mentions (u ++ "/" ++ v) "git-upload-pack" ->
  mentions u "git-upload-pack" \/ mentions ("/" ++ v) "git-upload-pack".
Proof.
  intros (pre & post & E). symmetry in E.
  apply append_split in E as [(m & -> & E)|(m & -> & E)].
  - apply append_split in E as [(k & -> & _)|(k & Hn & Hv)].
    + left. by exists pre, k.
    + destruct k as [|c k].
      * rewrite append_nil_r in Hn. subst m. left.
        exists pre, EmptyString. by rewrite append_nil_r.
      * rewrite !append_cons in Hv. injection Hv as <- _.
        destruct (upload_pack_has_no_slash m k Hn).
  - right. by exists m, post.
Qed.

Lemma mentions_app_r (u v name : string) :
  mentions u name -> mentions (u ++ v) name.
Proof.
  intros (pre & post & ->). exists pre, (post ++ v)%string.
  by rewrite !append_assoc.
Qed.

(** A URL that mentions the service past its first character keeps doing
    so when a path is appended to it. *)
Lemma prefix_upload_pack_mentioned (u v : string) :
  mentions u "git-upload-pack" ->
  String.prefix "git-upload-pack" u = false ->
  String.prefix "git-upload-pack" (u ++ v) = false.
Proof.
  intros (pre & post & Hu) Hpre.
  destruct (String.prefix "git-upload-pack" (u ++ v)) eqn:E; [|done].
  apply prefix_app in E as [post' E]. symmetry in E.
  apply append_split in E as [(m & -> & _)|(m & Hn & _)].
  - assert (String.prefix "git-upload-pack" ("git-upload-pack" ++ m) = true)
      as Ht by (apply prefix_app; by exists m).
    congruence.
  - assert (String.length "git-upload-pack" =
            String.length ((pre ++ "git-upload-pack" ++ post) ++ m)) as Hlen
      by (rewrite <- Hu; by rewrite <- Hn).
    rewrite !length_append in Hlen.
    assert (pre = EmptyString) as -> by (destruct pre; simpl in Hlen; [done|lia]).
    assert (post = EmptyString) as ->
      by (destruct post; simpl in Hlen; [done|lia]).
    rewrite append_nil, append_nil_r in Hu. subst u. done.
Qed.

Lemma not_mentions_by_indexOf (s name : string) :
  indexOf s name = -1 -> ~ mentions s name.
Proof.
  unfold indexOf. intros Hi Hm.
  pose proof (indexOf_from_found name s 0 Hm). lia.
Qed.

Lemma content_type_receive (u : string) :
  ~ mentions u "git-upload-pack" ->
  content_type u = "application/x-git-receive-pack-request"%string.
Proof.
  intros Hu.
  destruct (String.eqb_spec (content_type u)
              "application/x-git-upload-pack-request") as [E|E].
  - apply content_type_upload_iff in E as [Hm _]. by destruct Hu.
  - unfold content_type in *. by destruct (0 <? indexOf u "git-upload-pack").
Qed.

Section Action_then_transfer.

Variable js : host_runtime.
Variables GIT_SERVICE_UPLOADPACK_LS GIT_SERVICE_UPLOADPACK
          GIT_SERVICE_RECEIVEPACK_LS GIT_SERVICE_RECEIVEPACK : Z.

Hypothesis services_distinct :
  NoDup [GIT_SERVICE_UPLOADPACK_LS; GIT_SERVICE_UPLOADPACK;
         GIT_SERVICE_RECEIVEPACK_LS; GIT_SERVICE_RECEIVEPACK].

Local Abbreviation service_text url action :=
  (git_str_cstr
     (action_switch GIT_SERVICE_UPLOADPACK_LS GIT_SERVICE_UPLOADPACK
        GIT_SERVICE_RECEIVEPACK_LS GIT_SERVICE_RECEIVEPACK
        GIT_STR_INIT url action)).

Lemma service_text_known url action suffix :
  (action, suffix) ∈
    [ (GIT_SERVICE_UPLOADPACK_LS, "/info/refs?service=git-upload-pack"%string);
      (GIT_SERVICE_UPLOADPACK, "/git-upload-pack"%string);
      (GIT_SERVICE_RECEIVEPACK_LS,
       "/info/refs?service=git-receive-pack"%string);
      (GIT_SERVICE_RECEIVEPACK, "/git-receive-pack"%string) ] ->
  service_text url action = (url ++ suffix)%string.
Proof.
  intros Hin.
  destruct (service_codes_distinct _ _ _ _ services_distinct)
    as (H12 & H13 & H14 & H23 & H24 & H34).
  rewrite !elem_of_cons, elem_of_nil in Hin.
  unfold action_switch, git_str_cstr, git_str_printf_ss, GIT_STR_INIT.
  destruct Hin as [Hin|[Hin|[Hin|[Hin|[]]]]]; injection Hin as -> ->;
    repeat match goal with
           | |- context [?a =? ?b] => destruct (Z.eqb_spec a b)
           end;
    solve [done | exfalso; lia].
Qed.

(** An action followed by the first write on its stream. *)
Lemma action_then_write cell t url action buffer len w :
  exists p w1 h r w2,
    emscriptenhttp_action
      GIT_SERVICE_UPLOADPACK_LS GIT_SERVICE_UPLOADPACK
      GIT_SERVICE_RECEIVEPACK_LS GIT_SERVICE_RECEIVEPACK
      cell t url action w = Some (0, Some p, w1) /\
    emscriptenhttp_stream_write_single js p buffer len w1 = Some (0, w2) /\
    host_log w2 =
      host_log w ++
      [ HostEvent
          (emscriptenhttpconnect (service_text url action) 65536
             (Some "POST"%string)
             [("Content-Type"%string,
               content_type (service_text url action))]) h;
        HostEvent (emscriptenhttpwrite (to_int h) buffer len) r ].
Proof.
  rewrite emscriptenhttp_action_eq.
  eexists _, _, _, _, _. split; [reflexivity|].
  erewrite stream_write_eq; [|simpl; apply lookup_insert_eq]. cbv zeta.
  split; [reflexivity|]. simpl. by rewrite <- app_assoc.
Qed.

(** An action followed by the first read on its stream. *)
Lemma action_then_read cell t url action buffer buf_size bytes_read w :
  exists p w1 h rc n r w2,
    emscriptenhttp_action
      GIT_SERVICE_UPLOADPACK_LS GIT_SERVICE_UPLOADPACK
      GIT_SERVICE_RECEIVEPACK_LS GIT_SERVICE_RECEIVEPACK
      cell t url action w = Some (0, Some p, w1) /\
    emscriptenhttp_stream_read js p buffer buf_size bytes_read w1 =
      Some (rc, n, w2) /\
    host_log w2 =
      host_log w ++
      [ HostEvent
          (emscriptenhttpconnect (service_text url action) 65536 None []) h;
        HostEvent (emscriptenhttpread (to_int h) buffer buf_size) r ].
Proof.
  rewrite emscriptenhttp_action_eq.
  eexists _, _. 
  match goal with
  | |- exists h rc n r w2, Some (_, Some ?p, ?w1) = _ /\ _ =>
      assert (heap w1 !! p =
              Some (Obj_stream
                      (Stream (Some t)
                         (Some fn_emscriptenhttp_stream_read)
                         (Some fn_emscriptenhttp_stream_write_single)
                         (Some fn_emscriptenhttp_stream_free)
                         (Some (service_text url action)) (-1)))) as Hp
        by (simpl; apply lookup_insert_eq);
      pose proof (stream_read_eq js p buffer buf_size bytes_read _ w1 Hp)
        as Heq
  end.
  cbv zeta in Heq.
  destruct (read_value _ <? 0);
    eexists _, _, _, _, _; (split; [reflexivity|]);
    (split; [exact Heq|]); simpl; by rewrite <- app_assoc.
Qed.

(** X15: for each of the four services, the first read on the stream of
    an action opens a connection to the base URL followed by the suffix of
    the service, with the buffer size hint 65536 and neither method nor
    headers, and then reads on the handle the host answered. *)
Theorem action_then_read_gets_service_url
    cell t url action suffix buffer buf_size bytes_read w :
  (action, suffix) ∈
    [ (GIT_SERVICE_UPLOADPACK_LS, "/info/refs?service=git-upload-pack"%string);
      (GIT_SERVICE_UPLOADPACK, "/git-upload-pack"%string);
      (GIT_SERVICE_RECEIVEPACK_LS,
       "/info/refs?service=git-receive-pack"%string);
      (GIT_SERVICE_RECEIVEPACK, "/git-receive-pack"%string) ] ->
  exists p w1 h rc n r w2,
    emscriptenhttp_action
      GIT_SERVICE_UPLOADPACK_LS GIT_SERVICE_UPLOADPACK
      GIT_SERVICE_RECEIVEPACK_LS GIT_SERVICE_RECEIVEPACK
      cell t url action w = Some (0, Some p, w1) /\
    emscriptenhttp_stream_read js p buffer buf_size bytes_read w1 =
      Some (rc, n, w2) /\
    host_log w2 =
      host_log w ++
      [ HostEvent
          (emscriptenhttpconnect (url ++ suffix) 65536 None []) h;
        HostEvent (emscriptenhttpread (to_int h) buffer buf_size) r ].
Proof.
  intros Hin.
  destruct (action_then_read cell t url action buffer buf_size bytes_read w)
    as (p & w1 & h & rc & n & r & w2 & Hact & Hread & Hlog).
  rewrite (service_text_known url action suffix Hin) in Hlog.
  by exists p, w1, h, rc, n, r, w2.
Qed.

(** X16: on a base URL that does not begin with git-upload-pack, the
    first write on the stream of the upload-pack action opens a POST
    connection to the base URL followed by /git-upload-pack with the
    content type application/x-git-upload-pack-request. *)
Theorem fetch_posts_upload_pack_type cell t url buffer len w :
  String.prefix "git-upload-pack" url = false ->
  exists p w1 h r w2,
    emscriptenhttp_action
      GIT_SERVICE_UPLOADPACK_LS GIT_SERVICE_UPLOADPACK
      GIT_SERVICE_RECEIVEPACK_LS GIT_SERVICE_RECEIVEPACK
      cell t url GIT_SERVICE_UPLOADPACK w = Some (0, Some p, w1) /\
    emscriptenhttp_stream_write_single js p buffer len w1 = Some (0, w2) /\
    host_log w2 =
      host_log w ++
      [ HostEvent
          (emscriptenhttpconnect (url ++ "/git-upload-pack") 65536
             (Some "POST"%string)
             [("Content-Type"%string,
               "application/x-git-upload-pack-request"%string)]) h;
        HostEvent (emscriptenhttpwrite (to_int h) buffer len) r ].
Proof.
  intros Hpre.
  destruct (action_then_write cell t url GIT_SERVICE_UPLOADPACK buffer len w)
    as (p & w1 & h & r & w2 & Hact & Hwrite & Hlog).
  rewrite (service_text_known url GIT_SERVICE_UPLOADPACK "/git-upload-pack")
    in Hlog by (apply list_elem_of_further, list_elem_of_here).
  assert (content_type (url ++ "/git-upload-pack") =
          "application/x-git-upload-pack-request"%string) as Hct.
  { apply content_type_upload_iff. split.
    - exists (url ++ "/")%string, EmptyString.
      by rewrite append_nil_r, append_assoc.
    - by apply (prefix_upload_pack_path url "git-upload-pack"). }
  rewrite Hct in Hlog. by exists p, w1, h, r, w2.
Qed.

(** X17: on a base URL that does not mention git-upload-pack, the first
    write on the stream of the receive-pack action opens a POST connection
    to the base URL followed by /git-receive-pack with the content type
    application/x-git-receive-pack-request. *)
Theorem push_posts_receive_pack_type cell t url buffer len w :
  ~ mentions url "git-upload-pack" ->
  exists p w1 h r w2,
    emscriptenhttp_action
      GIT_SERVICE_UPLOADPACK_LS GIT_SERVICE_UPLOADPACK
      GIT_SERVICE_RECEIVEPACK_LS GIT_SERVICE_RECEIVEPACK
      cell t url GIT_SERVICE_RECEIVEPACK w = Some (0, Some p, w1) /\
    emscriptenhttp_stream_write_single js p buffer len w1 = Some (0, w2) /\
    host_log w2 =
      host_log w ++
      [ HostEvent
          (emscriptenhttpconnect (url ++ "/git-receive-pack") 65536
             (Some "POST"%string)
             [("Content-Type"%string,
               "application/x-git-receive-pack-request"%string)]) h;
        HostEvent (emscriptenhttpwrite (to_int h) buffer len) r ].
Proof.
  intros Hno.
  destruct (action_then_write cell t url GIT_SERVICE_RECEIVEPACK buffer len w)
    as (p & w1 & h & r & w2 & Hact & Hwrite & Hlog).
  rewrite (service_text_known url GIT_SERVICE_RECEIVEPACK "/git-receive-pack")
    in Hlog
    by (do 3 apply list_elem_of_further; apply list_elem_of_here).
  rewrite content_type_receive in Hlog; [by exists p, w1, h, r, w2|].
  intros Hm.
  apply (mentions_upload_pack_path url "git-receive-pack") in Hm as [Hm|Hm];
    [done|].
  revert Hm. by apply not_mentions_by_indexOf.
Qed.

(** X18: the content type follows the URL, not the action: on a base URL
    that mentions git-upload-pack past its first character, the first
    write on the stream of the receive-pack action opens its POST
    connection with the content type
    application/x-git-upload-pack-request. *)
Theorem push_to_upload_pack_url_posts_upload_type cell t url buffer len w :
  mentions url "git-upload-pack" ->
  String.prefix "git-upload-pack" url = false ->
  exists p w1 h r w2,
    emscriptenhttp_action
      GIT_SERVICE_UPLOADPACK_LS GIT_SERVICE_UPLOADPACK
      GIT_SERVICE_RECEIVEPACK_LS GIT_SERVICE_RECEIVEPACK
      cell t url GIT_SERVICE_RECEIVEPACK w = Some (0, Some p, w1) /\
    emscriptenhttp_stream_write_single js p buffer len w1 = Some (0, w2) /\
    host_log w2 =
      host_log w ++
      [ HostEvent
          (emscriptenhttpconnect (url ++ "/git-receive-pack") 65536
             (Some "POST"%string)
             [("Content-Type"%string,
               "application/x-git-upload-pack-request"%string)]) h;
        HostEvent (emscriptenhttpwrite (to_int h) buffer len) r ].
Proof.
  intros Hm Hpre.
  destruct (action_then_write cell t url GIT_SERVICE_RECEIVEPACK buffer len w)
    as (p & w1 & h & r & w2 & Hact & Hwrite & Hlog).
  rewrite (service_text_known url GIT_SERVICE_RECEIVEPACK "/git-receive-pack")
    in Hlog
    by (do 3 apply list_elem_of_further; apply list_elem_of_here).
  assert (content_type (url ++ "/git-receive-pack") =
          "application/x-git-upload-pack-request"%string) as Hct.
  { apply content_type_upload_iff. split.
    - by apply mentions_app_r.
    - by apply prefix_upload_pack_mentioned. }
  rewrite Hct in Hlog. by exists p, w1, h, r, w2.
Qed.

End Action_then_transfer.

Lemma libgit2_services_distinct : NoDup [1; 2; 3; 4].
Proof. apply (bool_decide_unpack _). vm_compute. exact I. Qed.

(** A sample of X15's statement: the listing for a fetch. *)
Lemma action_then_read_gets_service_url_witness :
  exists p w1 h rc n r w2,
    emscriptenhttp_action 1 2 3 4 None 1%positive "https://host/repo.git" 1
      empty_world = Some (0, Some p, w1) /\
    emscriptenhttp_stream_read numbering_host p 100 10 0 w1 =
      Some (rc, n, w2) /\
    host_log w2 =
      [] ++
      [ HostEvent
          (emscriptenhttpconnect
             ("https://host/repo.git" ++ "/info/refs?service=git-upload-pack")
             65536 None []) h;
        HostEvent (emscriptenhttpread (to_int h) 100 10) r ].
Proof.
  apply (action_then_read_gets_service_url numbering_host 1 2 3 4
           libgit2_services_distinct None 1%positive "https://host/repo.git"
           1 "/info/refs?service=git-upload-pack" 100 10 0 empty_world).
  apply list_elem_of_here.
Defined.

(** A sample of X16's statement: a fetch from an https URL. *)
Lemma fetch_posts_upload_pack_type_witness :
  exists p w1 h r w2,
    emscriptenhttp_action 1 2 3 4 None 1%positive "https://host/repo.git" 2
      empty_world = Some (0, Some p, w1) /\
    emscriptenhttp_stream_write_single numbering_host p 200 5 w1 =
      Some (0, w2) /\
    host_log w2 =
      [] ++
      [ HostEvent
          (emscriptenhttpconnect ("https://host/repo.git" ++ "/git-upload-pack")
             65536 (Some "POST"%string)
             [("Content-Type"%string,
               "application/x-git-upload-pack-request"%string)]) h;
        HostEvent (emscriptenhttpwrite (to_int h) 200 5) r ].
Proof.
  apply (fetch_posts_upload_pack_type numbering_host 1 2 3 4
           libgit2_services_distinct None 1%positive "https://host/repo.git"
           200 5 empty_world).
  reflexivity.
Defined.

(** A sample of X17's statement: a push to an https URL. *)
Lemma push_posts_receive_pack_type_witness :
  exists p w1 h r w2,
    emscriptenhttp_action 1 2 3 4 None 1%positive "https://host/repo.git" 4
      empty_world = Some (0, Some p, w1) /\
    emscriptenhttp_stream_write_single numbering_host p 200 5 w1 =
      Some (0, w2) /\
    host_log w2 =
      [] ++
      [ HostEvent
          (emscriptenhttpconnect ("https://host/repo.git" ++ "/git-receive-pack")
             65536 (Some "POST"%string)
             [("Content-Type"%string,
               "application/x-git-receive-pack-request"%string)]) h;
        HostEvent (emscriptenhttpwrite (to_int h) 200 5) r ].
Proof.
  apply (push_posts_receive_pack_type numbering_host 1 2 3 4
           libgit2_services_distinct None 1%positive "https://host/repo.git"
           200 5 empty_world).
  apply not_mentions_by_indexOf. reflexivity.
Defined.

(** A sample of X18's statement: a push to a URL with git-upload-pack in
    its path. *)
Lemma push_to_upload_pack_url_posts_upload_type_witness :
  exists p w1 h r w2,
    emscriptenhttp_action 1 2 3 4 None 1%positive
      "https://host/git-upload-pack-mirror" 4 empty_world =
      Some (0, Some p, w1) /\
    emscriptenhttp_stream_write_single numbering_host p 200 5 w1 =
      Some (0, w2) /\
    host_log w2 =
      [] ++
      [ HostEvent
          (emscriptenhttpconnect
             ("https://host/git-upload-pack-mirror" ++ "/git-receive-pack")
             65536 (Some "POST"%string)
             [("Content-Type"%string,
               "application/x-git-upload-pack-request"%string)]) h;
        HostEvent (emscriptenhttpwrite (to_int h) 200 5) r ].
Proof.
  apply (push_to_upload_pack_url_posts_upload_type numbering_host 1 2 3 4
           libgit2_services_distinct None 1%positive
           "https://host/git-upload-pack-mirror" 200 5 empty_world).
  - exists "https://host/"%string, "-mirror"%string. reflexivity.
  - reflexivity.
Defined.

Section Post_content_type.

Variable js : host_runtime.

(** X9: the content type of the POST that the first write on an unopened
    stream opens is one of the two request types, and it is
    application/x-git-upload-pack-request exactly when the service URL
    mentions git-upload-pack without beginning with it. *)
Theorem post_content_type_decided_by_url p buffer len s w :
  heap w !! p = Some (Obj_stream s) ->
  connectionNo s = UNOPENED ->
  exists ct h r w',
    emscriptenhttp_stream_write_single js p buffer len w = Some (0, w') /\
    host_log w' =
      host_log w ++
      [ HostEvent
          (emscriptenhttpconnect (UTF8ToString (service_url s)) 65536
             (Some "POST"%string) [("Content-Type"%string, ct)]) h;
        HostEvent (emscriptenhttpwrite (to_int h) buffer len) r ] /\
    (ct = "application/x-git-upload-pack-request"%string \/
     ct = "application/x-git-receive-pack-request"%string) /\
    (ct = "application/x-git-upload-pack-request"%string <->
     mentions (UTF8ToString (service_url s)) "git-upload-pack" /\
     String.prefix "git-upload-pack" (UTF8ToString (service_url s)) = false).
Proof.
  intros Hp Hc. unfold UNOPENED in Hc.
  rewrite (stream_write_eq js p buffer len s w Hp). cbv zeta.
  unfold opened_world, opened_stream. rewrite Hc. simpl.
  exists (content_type (UTF8ToString (service_url s))).
  eexists _, _, _. split; [reflexivity|]. simpl.
  split; [by rewrite <- app_assoc|].
  split; [|apply content_type_upload_iff].
  unfold content_type. destruct (0 <? indexOf _ _); auto.
Qed.

End Post_content_type.

(** A sample of X9's statement: a write to a receive-pack URL. *)
Lemma post_content_type_decided_by_url_witness :
  exists ct h r w',
    emscriptenhttp_stream_write_single numbering_host 2%positive 200 5
      (one_stream_world "http://host/repo/git-receive-pack") = Some (0, w') /\
    host_log w' =
      [] ++
      [ HostEvent
          (emscriptenhttpconnect "http://host/repo/git-receive-pack" 65536
             (Some "POST"%string) [("Content-Type"%string, ct)]) h;
        HostEvent (emscriptenhttpwrite (to_int h) 200 5) r ] /\
    (ct = "application/x-git-upload-pack-request"%string \/
     ct = "application/x-git-receive-pack-request"%string) /\
    (ct = "application/x-git-upload-pack-request"%string <->
     mentions "http://host/repo/git-receive-pack" "git-upload-pack" /\
     String.prefix "git-upload-pack" "http://host/repo/git-receive-pack" =
       false).
Proof.
  apply (post_content_type_decided_by_url numbering_host 2%positive 200 5
           (fresh_stream "http://host/repo/git-receive-pack")
           (one_stream_world "http://host/repo/git-receive-pack"));
    reflexivity.
Defined.
